(** * deepwave/fwi.py: batching, windowing, pooling and the inversion loop

    A shallow embedding of [src/deepwave/fwi.py].

    Conventions of the embedding:
    - Python [int]s are [Z]; sizes of tensor axes are [nat].
    - Python and torch floating-point numbers are idealised as exact
      rationals [Q]: a [Q] is the exact value of the float the program
      holds, an arithmetic operation is its exact result, and equality of
      computed reals is [Qeq] ([==]). The program rounds the result of
      every operation to the nearest float. Where a conclusion depends on
      an integer taken from such a result (a truncation, a ceiling), the
      theorem keeps to inputs for which the rounding cannot change that
      integer: results that are themselves floats ([is_binary64]),
      quotients away from the whole numbers ([settled]), numbers of
      ordinary magnitude ([ordinary]) and counts below [2^53].
    - A torch tensor is its shape together with its elements in row-major
      order.
    - A Python exception is a value of [exception]; a computation that may
      raise returns a [result]. *)

From Stdlib Require Import ZArith QArith Qround Qminmax List Bool Lia.
Import ListNotations.

Local Open Scope Z_scope.

(** ** Python values, exceptions and built-ins *)

Module Py.

Inductive exception : Type :=
| ValueError
| ZeroDivisionError
| IndexError
| RuntimeError.

Inductive result (A : Type) : Type :=
| Ok (a : A)
| Raise (e : exception).
Arguments Ok {A} a.
Arguments Raise {A} e.

Definition bind {A B} (r : result A) (k : A -> result B) : result B :=
  match r with
  | Ok a => k a
  | Raise e => Raise e
  end.

(** [a / b] on numbers: true division, [ZeroDivisionError] on a zero
    divisor. *)
Definition truediv (a b : Q) : result Q :=
  if Qeq_bool b 0 then Raise ZeroDivisionError else Ok (a / b)%Q.

(** [int(x)] on a float: truncation toward zero. *)
Definition int (x : Q) : Z := Z.quot (Qnum x) (Zpos (Qden x)).

(** [round(x)]: to the nearest integer, a tie to the even one. *)
Definition round (x : Q) : Z :=
  let f := Qfloor x in
  match (x - inject_Z f ?= 1 # 2)%Q with
  | Lt => f
  | Gt => f + 1
  | Eq => if Z.even f then f else f + 1
  end.

(** [math.ceil(x)]. *)
Definition ceil (x : Q) : Z := Qceiling x.

(** [a % b] on ints: the result has the sign of the divisor;
    [ZeroDivisionError] on a zero divisor. *)
Definition imod (a b : Z) : result Z :=
  if b =? 0 then Raise ZeroDivisionError else Ok (a mod b).

(** Normalisation of one bound of a slice against a sequence of length
    [n] (step 1): a negative bound counts from the end, and every bound
    is clipped to [0, n]. *)
Definition slice_bound (n : nat) (i : Z) : nat :=
  if i <? 0 then Z.to_nat (Z.max (Z.of_nat n + i) 0)
  else Nat.min (Z.to_nat i) n.

(** [xs[lo:hi]]. *)
Definition slice {A} (lo hi : Z) (xs : list A) : list A :=
  let n := length xs in
  skipn (slice_bound n lo) (firstn (slice_bound n hi) xs).

(** [xs[:hi]]. *)
Definition slice_to {A} (hi : Z) (xs : list A) : list A :=
  firstn (slice_bound (length xs) hi) xs.

(** [range(n)]. *)
Definition range (n : Z) : list Z := map Z.of_nat (seq 0 (Z.to_nat n)).

End Py.

Import Py.

Notation "x <- c ;; k" := (Py.bind c (fun x => k))
  (at level 61, c at next level, right associativity).
Notation "' pat <- c ;; k" := (Py.bind c (fun x => match x with pat => k end))
  (at level 61, pat pattern, c at next level, right associativity).

(** ** Tensors *)

Module Torch.

Record tensor : Type := mkTensor { shape : list nat; data : list Q }.

Definition numel (sh : list nat) : nat := fold_right Nat.mul 1%nat sh.

(** [t.dim()]. *)
Definition dim (t : tensor) : Z := Z.of_nat (length (shape t)).

(** [t.reshape(1, *t.shape)]. *)
Definition unsqueeze0 (t : tensor) : tensor :=
  mkTensor (1%nat :: shape t) (data t).

(** [t.reshape(1, 1, -1)] *)
Definition reshape_1_1_all (t : tensor) : tensor :=
  mkTensor [1%nat; 1%nat; length (data t)] (data t).

(** [t[0]] on a tensor whose first axis is not empty. *)
Definition index0 (t : tensor) : result tensor :=
  match shape t with
  | S _ :: rest => Ok (mkTensor rest (firstn (numel rest) (data t)))
  | _ => Raise IndexError
  end.

Definition Qmax_list (x : Q) (xs : list Q) : Q := fold_left Qmax xs x.
Definition Qmin_list (x : Q) (xs : list Q) : Q := fold_left Qmin xs x.

(** [t.max().item()] and [t.min().item()]; torch raises on a tensor
    without elements. *)
Definition max_item (t : tensor) : result Q :=
  match data t with
  | [] => Raise RuntimeError
  | x :: xs => Ok (Qmax_list x xs)
  end.

Definition min_item (t : tensor) : result Q :=
  match data t with
  | [] => Raise RuntimeError
  | x :: xs => Ok (Qmin_list x xs)
  end.

(** [n] consecutive blocks of [k] elements. *)
Fixpoint chunks {A} (k n : nat) (xs : list A) : list (list A) :=
  match n with
  | O => []
  | S n' => firstn k xs :: chunks k n' (skipn k xs)
  end.

(** [t[lo:hi]]: a slice of the first axis. *)
Definition slice0 (lo hi : Z) (t : tensor) : result tensor :=
  match shape t with
  | [] => Raise IndexError
  | d :: rest =>
      let rows := Py.slice lo hi (chunks (numel rest) d (data t)) in
      Ok (mkTensor (length rows :: rest) (concat rows))
  end.

(** [t[..., :hi]]: a slice of the last axis. *)
Definition slice_last_to (hi : Z) (t : tensor) : result tensor :=
  match rev (shape t) with
  | [] => Raise IndexError
  | d :: rlead =>
      let rows := chunks d (numel (rev rlead)) (data t) in
      Ok (mkTensor (rev rlead ++ [Py.slice_bound d hi])
                   (concat (map (Py.slice_to hi) rows)))
  end.

(** *** Average pooling

    [torch.nn.AvgPool1d], [AvgPool2d] and [AvgPool3d] built from a single
    kernel size and a single padding, with the library's defaults:
    the stride is the kernel size, [ceil_mode] is off and the implicit
    zero padding, added on both sides of every pooled axis, counts in
    the mean. The input has the pooled axes last, after a channel axis
    and an optional batch axis; only the batch axis may be empty. *)

Fixpoint multi_indices (sh : list nat) : list (list nat) :=
  match sh with
  | [] => [[]]
  | d :: rest =>
      flat_map (fun i => map (cons i) (multi_indices rest)) (seq 0 d)
  end.

(** Row-major position of a multi-index. *)
Fixpoint offset (sh idx : list nat) : nat :=
  match sh, idx with
  | _ :: rest, i :: idx' => (i * numel rest + offset rest idx')%nat
  | _, _ => O
  end.

(** [idx] is a multi-index of a tensor of shape [sh]. *)
Definition valid_index (sh idx : list nat) : Prop :=
  Forall2 (fun d i => (i < d)%nat) sh idx.

Definition get (t : tensor) (idx : list nat) : Q :=
  nth (offset (shape t) idx) (data t) 0%Q.

Definition inside (sh : list nat) (pos : list Z) : bool :=
  forallb (fun di => (0 <=? snd di) && (snd di <? Z.of_nat (fst di)))
          (combine sh pos).

(** Element of the zero-padded input: [lead] indexes the leading axes,
    [pos] the pooled axes, in coordinates of the unpadded input. *)
Definition get_padded (nsp : nat) (t : tensor) (lead : list nat)
           (pos : list Z) : Q :=
  if inside (skipn (length (shape t) - nsp) (shape t)) pos
  then get t (lead ++ map Z.to_nat pos)
  else 0%Q.

Definition Qsum (xs : list Q) : Q := fold_right Qplus 0%Q xs.

(** Input coordinates of element [w] of the window of output [o]. *)
Definition window_pos (kernel padding : Z) (o w : list nat) : list Z :=
  map (fun ow => Z.of_nat (fst ow) * kernel + Z.of_nat (snd ow) - padding)
      (combine o w).

Definition window_mean (nsp : nat) (kernel padding : Z) (t : tensor)
           (oidx : list nat) : Q :=
  let nlead := (length (shape t) - nsp)%nat in
  let lead := firstn nlead oidx in
  let o := skipn nlead oidx in
  (Qsum (map (fun w => get_padded nsp t lead (window_pos kernel padding o w))
             (multi_indices (repeat (Z.to_nat kernel) nsp)))
   / inject_Z (kernel ^ Z.of_nat nsp))%Q.

(** Length of a pooled axis: [floor((L + 2*padding - kernel) / stride) + 1]
    with the stride equal to the kernel. *)
Definition pooled_length (kernel padding : Z) (d : nat) : nat :=
  Z.to_nat ((Z.of_nat d + 2 * padding - kernel) / kernel + 1).

Definition avg_pool (nsp : nat) (kernel padding : Z) (t : tensor)
  : result tensor :=
  let rank := length (shape t) in
  if negb ((rank =? nsp + 1)%nat || (rank =? nsp + 2)%nat)
  then Raise RuntimeError
  else if existsb (Nat.eqb 0)
                  (if (rank =? nsp + 2)%nat then tl (shape t) else shape t)
  then Raise RuntimeError
  else if (kernel <=? 0) || (padding <? 0) || (kernel <? 2 * padding)
  then Raise RuntimeError
  else
    let lead := firstn (rank - nsp) (shape t) in
    let out_sp := map (pooled_length kernel padding)
                      (skipn (rank - nsp) (shape t)) in
    if existsb (Nat.eqb 0) out_sp then Raise RuntimeError
    else Ok (mkTensor (lead ++ out_sp)
                      (map (window_mean nsp kernel padding t)
                           (multi_indices (lead ++ out_sp)))).

Inductive poolfunc : Type := AvgPool1d | AvgPool2d | AvgPool3d.

Definition pooled_axes (f : poolfunc) : nat :=
  match f with AvgPool1d => 1 | AvgPool2d => 2 | AvgPool3d => 3 end%nat.

(** [poolfunc(kernel, padding=padding)(t)]. *)
Definition apply_pool (f : poolfunc) (kernel padding : Z) (t : tensor)
  : result tensor :=
  avg_pool (pooled_axes f) kernel padding t.

(** [t.reshape(-1, 1, 1).repeat(1, a, b)]. *)
Definition repeat_each (a b : nat) (t : tensor) : tensor :=
  mkTensor [length (data t); a; b]
           (flat_map (fun x => repeat x (a * b)%nat) (data t)).

(** [t.permute(2, 0, 1)] on a tensor with three axes. *)
Definition permute_2_0_1 (t : tensor) : result tensor :=
  match shape t with
  | [d0; d1; d2] =>
      Ok (mkTensor [d2; d0; d1]
            (map (fun idx => match idx with
                             | [k; i; j] => get t [i; j; k]
                             | _ => 0%Q
                             end)
                 (multi_indices [d2; d0; d1])))
  | _ => Raise RuntimeError
  end.

(** [x.clamp(None, hi)] on one element. *)
Definition clamp_max (hi x : Q) : Q := Qmin x hi.

End Torch.

Import Torch.

(** ** The functions of [fwi.py] *)

(** The dataset collaborator. *)
Record dataset : Type := mkDataset {
  num_shots : Z;
  num_steps : Z;
  dt : Q;
  dx : Q;
  get_shots : Z -> Z -> result tensor;
  src_locs : tensor;
  rec_locs : tensor
}.

(** Lines 9-18 of [extract_batch]: the shot range [(batch_start, batch_end)]
    of a batch. The quotients are exact; the quotients of the program are
    doubles, the same up to [2^53] shots. *)
Definition batch_range (num_shots num_superbatches num_batches
                        superbatch_idx batch_idx : Z) : result (Z * Z) :=
  q <- truediv (inject_Z num_shots) (inject_Z num_superbatches) ;;
  let superbatch_size := ceil q in
  q' <- truediv (inject_Z superbatch_size) (inject_Z num_batches) ;;
  let batch_size := ceil q' in
  let batch_start := Z.min (batch_idx * superbatch_size +
                            superbatch_idx * batch_size) num_shots in
  let batch_end := Z.min (batch_start + batch_size) num_shots in
  Ok (batch_start, batch_end).

Definition extract_batch (ds : dataset)
           (num_superbatches num_batches superbatch_idx batch_idx : Z)
  : result (tensor * tensor * tensor) :=
  ' (batch_start, batch_end) <-
      batch_range (num_shots ds) num_superbatches num_batches
                  superbatch_idx batch_idx ;;
  batch_data <- get_shots ds batch_start batch_end ;;
  batch_src_locs <- slice0 batch_start batch_end (src_locs ds) ;;
  batch_rec_locs <- slice0 batch_start batch_end (rec_locs ds) ;;
  Ok (batch_data, batch_src_locs, batch_rec_locs).

(** The padding is taken from the exact quotient [start_time / dt]; the
    program truncates the double nearest to it, the same integer when the
    quotient is a double. *)
Definition pool_data (data : tensor) (num_pool : Z) (dt start_time : Q)
  : result (tensor * Q) :=
  q <- truediv start_time dt ;;
  padding <- imod (int q) num_pool ;;
  data_pool <- apply_pool AvgPool1d num_pool padding data ;;
  Ok (data_pool, (dt * inject_Z num_pool)%Q).

(** The rank dispatch of [pool_model]. *)
Definition select_poolfunc (ndims : Z) : result poolfunc :=
  if ndims =? 2 then Ok AvgPool1d
  else if ndims =? 3 then Ok AvgPool2d
  else if ndims =? 4 then Ok AvgPool3d
  else Raise ValueError.

(** [torch.ceil(max_dx / torch.as_tensor(dx)).long()] for a scalar [dx].
    A zero [dx] makes the quotient infinite or undefined; it has no integer
    value that is a kernel size, and building the pooling from it raises.
    The ceiling is that of the exact quotient; the program takes the
    ceiling of the single-precision [reciprocal(dx) * max_dx], the same
    integer for a quotient that is [settled]. *)
Definition ceil_quotient (max_dx dx : Q) : result Z :=
  if Qeq_bool dx 0 then Raise RuntimeError else Ok (Qceiling (max_dx / dx)).

(** Lines 46-50 of [pool_model]: the decimation factor. *)
Definition pool_factor (model : tensor) (dt dx min_cells_per_wavelength : Q)
  : result Z :=
  min_vel <- min_item model ;;
  f <- truediv 1 dt ;;
  max_freq <- truediv f 2 ;;
  min_wavelength <- truediv min_vel max_freq ;;
  max_dx <- truediv min_wavelength min_cells_per_wavelength ;;
  ceil_quotient max_dx dx.

Definition pool_model (model : tensor) (dt dx min_cells_per_wavelength : Q)
  : result (tensor * Q) :=
  let ndims := dim model in
  poolfunc <- select_poolfunc ndims ;;
  num_pool <- pool_factor model dt dx min_cells_per_wavelength ;;
  pooled <- apply_pool poolfunc num_pool 0 (unsqueeze0 model) ;;
  model_pool <- index0 pooled ;;
  Ok (model_pool, (dx * inject_Z num_pool)%Q).

(** Line 60 of [apply_max_time]: the length the wavelet is cut to, from
    the exact quotient and sum; the program truncates the sum of doubles,
    the same integer when the quotient and the sum are doubles. *)
Definition max_src_amp_time (dt src_start_time : Q) (max_time : Z)
  : result Z :=
  q <- truediv (- src_start_time) dt ;;
  Ok (int (q + inject_Z max_time)).

Definition apply_max_time (batch_data_true src_amp : tensor)
           (dt src_start_time : Q) (max_time : Z)
  : result (tensor * tensor) :=
  batch_data_true' <- slice_last_to max_time batch_data_true ;;
  n <- max_src_amp_time dt src_start_time max_time ;;
  src_amp' <- slice0 0 n src_amp ;;
  Ok (batch_data_true', src_amp').

(** [torch.ones(n) * x]; a negative size raises. *)
Definition ones_times (n : Z) (x : Q) : result (list Q) :=
  if n <? 0 then Raise RuntimeError
  else Ok (map (fun one => one * x)%Q (repeat 1%Q (Z.to_nat n))).

Definition calc_survey_pad (max_time : Z) (dt : Q) (model : tensor)
           (max_horiz_survey_pad : Q) : result (list Q) :=
  let ndims := dim model - 1 in
  m <- max_item model ;;
  let pad_dist := (m * inject_Z max_time * dt / 2)%Q in
  survey_pad <- ones_times (2 * ndims) pad_dist ;;
  if 1 <? ndims
  then Ok (firstn 2 survey_pad ++
           map (clamp_max max_horiz_survey_pad) (skipn 2 survey_pad))
  else Ok survey_pad.

(** [torch.Tensor([0, 1, 1, 1, 0, 0]) * pml_width], line 119 of [fwi]. *)
Definition pml_width_vector (pml_width : Q) : list Q :=
  map (fun m => m * pml_width)%Q [0; 1; 1; 1; 0; 0]%Q.

(** Lines 98-99 of [fwi]: the leading axis of the model. *)
Definition add_model_axis (model_init : tensor) : result tensor :=
  match shape model_init with
  | [] => Raise IndexError
  | d :: _ =>
      if negb (d =? 1)%nat then Ok (unsqueeze0 model_init)
      else Ok model_init
  end.

(** ** The inversion loop

    The optimizer, the propagator, the loss and automatic differentiation
    are collaborators of [fwi]: the loop is embedded over any
    implementation of them. The tensors being inverted and the optimizer
    are mutable objects of the Python program; they are threaded through
    the loop as [loop_state], together with a trace of the calls the loop
    makes and of what it prints. *)

Inductive param : Type := SrcAmp | Model.

Inductive event : Type :=
| CalcSurveyPad (max_time_idx max_time : Z)
| ZeroGrad (epoch superbatch_idx : Z)
| RunBatch (epoch superbatch_idx batch_idx : Z)
| Step (epoch superbatch_idx : Z)
| Print (epoch : Z) (epoch_loss : Q).

Section Inversion.

(** State of [torch.optim.Adam], gradient buffers included. *)
Variable Optim : Type.
(** [torch.optim.Adam(params)], from the parameter groups and their
    learning rates. *)
Variable Adam : list (param * Q) -> result Optim.
(** [optimizer.zero_grad()]. *)
Variable zero_grad : Optim -> Optim.
(** [optimizer.step()]: updates the wavelet and the model in place. *)
Variable step : Optim -> tensor -> tensor -> Optim * tensor * tensor.
(** Lines 182-191 of [run_batch]: the propagator built from
    [(model_pool, dx, pml_width, survey_pad)] and applied to
    [(batch_src_amps, batch_src_locs, batch_rec_locs, dt)], the loss
    against [batch_data_true] and its backward pass. *)
Variable propagate_backward :
  tensor -> Q -> list Q -> list Q ->
  tensor -> tensor -> tensor -> Q -> tensor ->
  Optim -> result (Optim * Q).

Definition run_batch (ds : dataset) (src_amp : tensor) (src_start_time : Q)
           (model : tensor) (num_pool_data : Z)
           (batch_data_true batch_src_locs batch_rec_locs : tensor)
           (max_time : Z) (pml_width survey_pad : list Q)
           (opt : Optim) : result (Optim * Q) :=
  ' (batch_data_true, src_amp) <-
      apply_max_time batch_data_true src_amp (dt ds) src_start_time
                     max_time ;;
  ' (batch_data_true, dt') <-
      pool_data batch_data_true num_pool_data (dt ds) 0 ;;
  ' (src_amp_pool, _) <-
      pool_data (reshape_1_1_all src_amp) num_pool_data (dt ds)
                src_start_time ;;
  ' (model_pool, dx') <- pool_model model dt' (dx ds) 4 ;;
  batch_src_amps <-
    match shape batch_src_locs with
    | a :: b :: _ => Ok (repeat_each a b src_amp_pool)
    | _ => Raise RuntimeError
    end ;;
  batch_data_true <- permute_2_0_1 batch_data_true ;;
  propagate_backward model_pool dx' pml_width survey_pad
                     batch_src_amps batch_src_locs batch_rec_locs dt'
                     batch_data_true opt.

Record loop_state : Type := mkState {
  src_amp : tensor;
  model : tensor;
  optimizer : Optim;
  trace : list event
}.

(** A step of the loop changes the state and completes or raises. *)
Definition loop (A : Type) : Type := loop_state -> loop_state * result A.

Definition ret {A} (a : A) : loop A := fun s => (s, Ok a).

Definition seq_loop {A B} (c : loop A) (k : A -> loop B) : loop B :=
  fun s => match c s with
           | (s', Ok a) => k a s'
           | (s', Raise e) => (s', Raise e)
           end.

Definition lift {A} (r : result A) : loop A := fun s => (s, r).

Definition emit (e : event) : loop unit :=
  fun s => (mkState (src_amp s) (model s) (optimizer s) (trace s ++ [e]),
            Ok tt).

(** [for x in xs: acc = body(x, acc)]. *)
Fixpoint for_each {A B} (xs : list A) (body : A -> B -> loop B) (acc : B)
  : loop B :=
  match xs with
  | [] => ret acc
  | x :: xs' => seq_loop (body x acc) (for_each xs' body)
  end.

Section Loop.

Variables (ds : dataset) (src_start_time : Q).
Variables (num_pool_data num_max_time num_epochs
           num_superbatches num_batches : Z).
Variables (pml_width : list Q) (max_horiz_survey_pad : Q).

(** Lines 131-141: one batch; returns the updated [epoch_loss]. *)
Definition batch_body (max_time : Z) (survey_pad : list Q)
           (epoch superbatch_idx batch_idx : Z) (epoch_loss : Q)
  : loop Q :=
  seq_loop (lift (extract_batch ds num_superbatches num_batches
                                superbatch_idx batch_idx))
  (fun b => let '(batch_data_true, batch_src_locs, batch_rec_locs) := b in
  seq_loop (emit (RunBatch epoch superbatch_idx batch_idx)) (fun _ =>
  fun s =>
    match run_batch ds (src_amp s) src_start_time (model s)
                    num_pool_data batch_data_true batch_src_locs
                    batch_rec_locs max_time pml_width survey_pad
                    (optimizer s) with
    | Ok (opt, loss) =>
        (mkState (src_amp s) (model s) opt (trace s),
         Ok (epoch_loss + loss)%Q)
    | Raise e => (s, Raise e)
    end)).

(** Lines 128-142: one superbatch. *)
Definition superbatch_body (max_time : Z) (survey_pad : list Q)
           (epoch superbatch_idx : Z) (epoch_loss : Q) : loop Q :=
  seq_loop (emit (ZeroGrad epoch superbatch_idx)) (fun _ =>
  seq_loop (fun s => (mkState (src_amp s) (model s)
                              (zero_grad (optimizer s)) (trace s),
                      Ok tt)) (fun _ =>
  seq_loop (for_each (range num_batches)
                     (batch_body max_time survey_pad epoch superbatch_idx)
                     epoch_loss) (fun epoch_loss =>
  seq_loop (emit (Step epoch superbatch_idx)) (fun _ =>
  fun s =>
    let '(opt, src_amp', model') :=
      step (optimizer s) (src_amp s) (model s) in
    (mkState src_amp' model' opt (trace s), Ok epoch_loss))))).

(** Lines 126-143: one epoch. *)
Definition epoch_body (max_time : Z) (survey_pad : list Q)
           (epoch : Z) (_ : unit) : loop unit :=
  let epoch_loss := 0%Q in
  seq_loop (for_each (range num_superbatches)
                     (superbatch_body max_time survey_pad epoch)
                     epoch_loss) (fun epoch_loss =>
  emit (Print epoch epoch_loss)).

(** Lines 123-143: one stage of the time horizon. *)
Definition stage_body (max_time_idx : Z) (_ : unit) : loop unit :=
  seq_loop (lift (truediv (inject_Z (num_steps ds))
                          (inject_Z num_max_time))) (fun q =>
  let max_time := (max_time_idx + 1) * int q in
  seq_loop (emit (CalcSurveyPad max_time_idx max_time)) (fun _ =>
  seq_loop (fun s => (s, calc_survey_pad max_time (dt ds) (model s)
                                         max_horiz_survey_pad))
  (fun survey_pad =>
  for_each (range num_epochs) (epoch_body max_time survey_pad) tt))).

(** Lines 122-143: the inversion loop. *)
Definition inversion_loop : loop unit :=
  for_each (range 1) stage_body tt.

End Loop.

Definition fwi (ds : dataset) (src_amp_init : tensor) (src_start_time : Q)
           (model_init : tensor)
           (num_pool_data num_max_time num_epochs
            num_superbatches num_batches : Z)
           (pml_width max_horiz_survey_pad lr_model lr_src_amp : Q)
           (invert_source invert_model : bool)
  : list event * result (tensor * tensor) :=
  match
    (model_init <- add_model_axis model_init ;;
     let params :=
       (if invert_source then [(SrcAmp, lr_src_amp)] else []) ++
       (if invert_model then [(Model, lr_model)] else []) in
     opt <- Adam params ;;
     Ok (mkState src_amp_init model_init opt []))
  with
  | Raise e => ([], Raise e)
  | Ok s0 =>
      let pml_width := pml_width_vector pml_width in
      match inversion_loop ds src_start_time num_pool_data num_max_time
                           num_epochs num_superbatches num_batches
                           pml_width max_horiz_survey_pad s0 with
      | (s, Ok _) => (trace s, Ok (src_amp s, model s))
      | (s, Raise e) => (trace s, Raise e)
      end
  end.

End Inversion.

Arguments trace {Optim} l.
Arguments ret {Optim A} a s.
Arguments seq_loop {Optim A B} c k s.
Arguments lift {Optim A} r s.
Arguments emit {Optim} e s.
Arguments for_each {Optim A B} xs body acc.

(** ** One sweep of the batch loops

    Lines 128-135 of [fwi] call [extract_batch] for every
    [superbatch_idx] in [range(num_superbatches)] and every [batch_idx] in
    [range(num_batches)], in that order. *)

Definition sweep (num_shots num_superbatches num_batches : Z)
  : list (result (Z * Z)) :=
  flat_map (fun superbatch_idx =>
              map (batch_range num_shots num_superbatches num_batches
                               superbatch_idx)
                  (range num_batches))
           (range num_superbatches).

Definition covers (shot : Z) (r : result (Z * Z)) : bool :=
  match r with
  | Ok (batch_start, batch_end) =>
      (batch_start <=? shot) && (shot <? batch_end)
  | Raise _ => false
  end.

(** Number of batches of one sweep whose range holds [shot]. *)
Definition visits (num_shots num_superbatches num_batches shot : Z) : nat :=
  length (filter (covers shot)
                 (sweep num_shots num_superbatches num_batches)).

(** ** The specification's words, and sample inputs *)

(** The wavelet length as the specification words it:
    [round(-wavelet_start_time/dt) + max_time_steps]. *)
Definition spec_wavelet_length (dt wavelet_start_time : Q) (max_time_steps : Z)
  : Z :=
  round (- wavelet_start_time / dt) + max_time_steps.


(** The pooled length as the specification words it:
    [ceil((input_length + padding) / factor)]. *)
Definition spec_pool_length (input_length padding factor : Z) : Z :=
  ceil (inject_Z (input_length + padding) / inject_Z factor).

(** A pooled tensor and its time step with every number in lowest terms. *)
Definition observe (r : result (tensor * Q))
  : result (list nat * list Q * Q) :=
  match r with
  | Ok (t, step) => Ok (shape t, map Qred (data t), Qred step)
  | Raise e => Raise e
  end.

(** A wavelet of eight samples and the recording of one shot by one
    receiver over eight time steps. *)
Definition sample_wavelet : tensor :=
  mkTensor [8%nat] [1; 2; 3; 4; 5; 6; 7; 8]%Q.

Definition sample_trace : tensor :=
  mkTensor [1; 1; 8]%nat [10; 20; 30; 40; 50; 60; 70; 80]%Q.

(** ** Traces of the inversion loop *)

Definition is_stage (e : event) : bool :=
  match e with CalcSurveyPad _ _ => true | _ => false end.

(** Number of time-horizon stages begun in a trace: the calls of
    [calc_survey_pad]. *)
Definition stages (tr : list event) : nat := length (filter is_stage tr).

Definition is_print (e : event) : bool :=
  match e with Print _ _ => true | _ => false end.

(** Number of epochs completed in a trace. *)
Definition epochs (tr : list event) : nat := length (filter is_print tr).

(** The calls of one superbatch, of one epoch and of one stage. *)
Definition superbatch_trace (num_batches epoch superbatch_idx : Z)
  : list event :=
  ZeroGrad epoch superbatch_idx ::
  map (RunBatch epoch superbatch_idx) (range num_batches) ++
  [Step epoch superbatch_idx].

Definition epoch_trace (num_superbatches num_batches : Z)
           (epoch_and_loss : Z * Q) : list event :=
  flat_map (superbatch_trace num_batches (fst epoch_and_loss))
           (range num_superbatches) ++
  [Print (fst epoch_and_loss) (snd epoch_and_loss)].

Definition stage_trace (num_epochs num_superbatches num_batches : Z)
           (max_time_idx max_time : Z) (losses : list Q) : list event :=
  CalcSurveyPad max_time_idx max_time ::
  flat_map (epoch_trace num_superbatches num_batches)
           (combine (range num_epochs) losses).

(** ** Predicates on steps of the loop *)

(** A step that begins no stage, whether it completes or raises. *)
Definition quiet {Optim A} (c : loop Optim A) : Prop :=
  forall s, stages (trace (fst (c s))) = stages (trace s).

(** A step that begins at most [n] stages. *)
Definition begins_at_most {Optim A} (n : nat) (c : loop Optim A) : Prop :=
  forall s, (stages (trace (fst (c s))) <= stages (trace s) + n)%nat.

(** A step that leaves the trace alone: an update of the tensors or of the
    optimizer. *)
Definition keeps_trace {Optim A} (c : loop Optim A) : Prop :=
  forall s, trace (fst (c s)) = trace s.

(** What a step adds to the trace when it completes with the value [a]. *)
Definition yields {Optim A} (c : loop Optim A)
           (P : A -> list event -> Prop) : Prop :=
  forall s s' a,
    c s = (s', Ok a) ->
    exists t, trace s' = trace s ++ t /\ P a t.

(** ** A small survey

    Four shots of one source and one receiver over eight time steps, a
    uniform model, and collaborators that leave the parameters as they
    are: the optimizer refuses an empty parameter list and otherwise does
    nothing, and every batch has the loss 1. *)

Definition sample_dataset : dataset :=
  let shots := mkTensor [4; 1; 8]%nat (map inject_Z (range 32)) in
  mkDataset 4 8 (1 # 1000) 5
            (fun batch_start batch_end => slice0 batch_start batch_end shots)
            (mkTensor [4; 1; 2]%nat (map inject_Z (range 8)))
            (mkTensor [4; 1; 2]%nat (map inject_Z (range 8))).

Definition sample_model : tensor :=
  mkTensor [1; 4; 4]%nat (repeat 1500%Q 16).

Definition idle_Adam (params : list (param * Q)) : result unit :=
  match params with
  | [] => Raise ValueError
  | _ :: _ => Ok tt
  end.

Definition idle_zero_grad (opt : unit) : unit := opt.

Definition idle_step (opt : unit) (src_amp model : tensor)
  : unit * tensor * tensor :=
  (opt, src_amp, model).

Definition unit_loss (model_pool : tensor) (dx : Q)
           (pml_width survey_pad : list Q)
           (batch_src_amps batch_src_locs batch_rec_locs : tensor) (dt : Q)
           (batch_data_true : tensor) (opt : unit) : result (unit * Q) :=
  Ok (opt, 1%Q).

(** [fwi] on the small survey: pooling by 2, [num_max_time] stages asked
    for, [num_epochs] epochs of 2 superbatches of 2 batches. *)
Definition sample_fwi (num_max_time num_epochs : Z)
  : list event * result (tensor * tensor) :=
  fwi unit idle_Adam idle_zero_grad idle_step unit_loss
      sample_dataset sample_wavelet 0 sample_model
      2 num_max_time num_epochs 2 2
      10 500 100000 (1 # 10000) true true.

(** ** Well-formed tensors and counts of calls *)

(** A tensor holds as many elements as its shape says. *)
Definition well_formed (t : tensor) : Prop :=
  length (data t) = numel (shape t).

Definition is_step (e : event) : bool :=
  match e with Step _ _ => true | _ => false end.

Definition is_zero_grad (e : event) : bool :=
  match e with ZeroGrad _ _ => true | _ => false end.

Definition is_run_batch (e : event) : bool :=
  match e with RunBatch _ _ _ => true | _ => false end.

(** Number of events of a trace that satisfy [p]. *)
Definition count (p : event -> bool) (tr : list event) : nat :=
  length (filter p tr).

(** The small model pooled for the time step of the small survey pooled
    by 2, and the locations of one shot. *)
Definition sample_pooled_model : tensor * Q :=
  match pool_model sample_model ((1 # 1000) * inject_Z 2) 5 4 with
  | Ok r => r
  | Raise _ => (sample_model, 5%Q)
  end.



(** ** Where the exact result is the program's

    The predicates under which a rounded computation of the program gives
    the integer that the exact one gives. *)

Fixpoint pos_odd_part (p : positive) : positive :=
  match p with
  | xO p' => pos_odd_part p'
  | _ => p
  end.

Fixpoint pos_trailing_zeros (p : positive) : nat :=
  match p with
  | xO p' => S (pos_trailing_zeros p')
  | _ => O
  end.

(** [q] is the value of a finite double-precision float: [m * 2^e] with
    [|m| < 2^53] and [-1074 <= e <= 971]. An operation of the program
    whose exact result is such a number returns it unrounded. *)
Definition is_binary64 (q : Q) : bool :=
  let r := Qred q in
  match Qnum r with
  | 0 => true
  | Zpos n | Zneg n =>
      Pos.eqb (pos_odd_part (Qden r)) 1 &&
      Nat.leb (pos_trailing_zeros (Qden r)) 1074 &&
      (Zpos (pos_odd_part n) <? 2 ^ 53) &&
      (Zpos n <? 2 ^ 1024)
  end.



(** * Properties *)

(** ** Batch ranges *)

Lemma ceil_nonneg (q : Q) : (0 <= q)%Q -> 0 <= ceil q.
Proof.
  intros H. unfold ceil.
  change 0 with (Qceiling (inject_Z 0)).
  apply Qceiling_resp_le. exact H.
Qed.

Lemma truediv_ok (a b : Q) : ~ (b == 0)%Q -> truediv a b = Ok (a / b)%Q.
Proof.
  intros H. unfold truediv.
  destruct (Qeq_bool b 0) eqn:E; [| reflexivity].
  apply Qeq_bool_eq in E. contradiction.
Qed.

Lemma inject_Z_pos (z : Z) : 0 < z -> (0 < inject_Z z)%Q.
Proof. intros H. unfold Qlt, inject_Z; simpl. lia. Qed.

Lemma Qdiv_nonneg (a b : Q) : (0 <= a)%Q -> (0 < b)%Q -> (0 <= a / b)%Q.
Proof.
  intros Ha Hb. unfold Qdiv.
  apply Qmult_le_0_compat; [exact Ha |].
  apply Qlt_le_weak, Qinv_lt_0_compat, Hb.
Qed.

(** Every range of a sweep lies inside the dataset:
    [0 <= batch_start <= batch_end <= num_shots]. *)
Lemma batch_range_bounds (num_shots nsb nb sb b : Z) :
  0 <= num_shots -> 1 <= nsb -> 1 <= nb -> 0 <= sb -> 0 <= b ->
  exists batch_start batch_end,
    batch_range num_shots nsb nb sb b = Ok (batch_start, batch_end) /\
    0 <= batch_start <= batch_end /\ batch_end <= num_shots.
Proof.
  intros Hn Hs Hb Hsb Hbi. unfold batch_range.
  assert (Hs' : (0 < inject_Z nsb)%Q) by (apply inject_Z_pos; lia).
  assert (Hb' : (0 < inject_Z nb)%Q) by (apply inject_Z_pos; lia).
  rewrite truediv_ok by (intros E; rewrite E in Hs'; discriminate).
  cbn [bind].
  rewrite truediv_ok by (intros E; rewrite E in Hb'; discriminate).
  cbn [bind].
  set (ss := ceil (inject_Z num_shots / inject_Z nsb)).
  assert (Hss : 0 <= ss).
  { apply ceil_nonneg, Qdiv_nonneg; [| exact Hs'].
    unfold Qle, inject_Z; simpl. lia. }
  set (bs := ceil (inject_Z ss / inject_Z nb)).
  assert (Hbs : 0 <= bs).
  { apply ceil_nonneg, Qdiv_nonneg; [| exact Hb'].
    unfold Qle, inject_Z; simpl. lia. }
  eexists _, _. split; [reflexivity |]. nia.
Qed.

(** C1. One sweep of [extract_batch] is not a partition of the shots.
    In the layout drawn in its comment, 24 shots in 3 superbatches of 4
    batches, the fourth batch of every superbatch is empty and shots 6, 7,
    14, 15, 22 and 23 are in no range. With 4 superbatches of 3 batches
    shots 20 to 23 are in no range and shots 6 and 7 are in two. In the
    specification's example of 10 shots, 2 superbatches and 2 batches,
    shot 5 is in two ranges. *)
Theorem extract_batch_sweep_gaps_and_overlaps :
  sweep 24 3 4 =
    [Ok (0, 2); Ok (8, 10); Ok (16, 18); Ok (24, 24);
     Ok (2, 4); Ok (10, 12); Ok (18, 20); Ok (24, 24);
     Ok (4, 6); Ok (12, 14); Ok (20, 22); Ok (24, 24)] /\
  map (visits 24 3 4) [6; 7; 14; 15; 22; 23] = [0; 0; 0; 0; 0; 0]%nat /\
  sweep 24 4 3 =
    [Ok (0, 2); Ok (6, 8); Ok (12, 14);
     Ok (2, 4); Ok (8, 10); Ok (14, 16);
     Ok (4, 6); Ok (10, 12); Ok (16, 18);
     Ok (6, 8); Ok (12, 14); Ok (18, 20)] /\
  map (visits 24 4 3) [20; 21; 22; 23] = [0; 0; 0; 0]%nat /\
  map (visits 24 4 3) [6; 7] = [2; 2]%nat /\
  sweep 10 2 2 = [Ok (0, 3); Ok (5, 8); Ok (3, 6); Ok (8, 10)] /\
  visits 10 2 2 5 = 2%nat.
Proof. repeat split; vm_compute; reflexivity. Qed.

(** The sweep covers every shot exactly once when the number of
    superbatches and of batches are both [n] and there are [n * n * k]
    shots: the case in which the two strides fit. Checked here on the
    instance [n = 3], [k = 2]. *)
Lemma sweep_square_instance :
  map (visits 18 3 3) (range 18) = repeat 1%nat 18.
Proof. vm_compute. reflexivity. Qed.

Lemma sweep_not_exact_cover :
  ~ (forall num_shots nsb nb shot,
        1 <= num_shots -> 1 <= nsb -> 1 <= nb -> 0 <= shot < num_shots ->
        visits num_shots nsb nb shot = 1%nat).
Proof.
  intros H. specialize (H 10 1 3 4).
  assert (E : visits 10 1 3 4 = 0%nat) by (vm_compute; reflexivity).
  rewrite E in H. discriminate H; lia.
Qed.

(** ** The PML widths *)

(** With the default width 10 the vector is [0, 10, 10, 10, 0, 0]: the
    second entry of the first pair is 10, not 0, and the last pair is 0,
    not 10. *)
Lemma pml_width_first_pair_not_zeroed :
  map Qred (pml_width_vector 10) = [0; 10; 10; 10; 0; 0]%Q /\
  ~ (nth 1 (pml_width_vector 10) 0 == 0)%Q /\
  ~ (nth 4 (pml_width_vector 10) 0 == 10)%Q /\
  ~ (nth 5 (pml_width_vector 10) 0 == 10)%Q.
Proof. repeat split; vm_compute; discriminate. Qed.

(** C5 (as the code has it). The PML width vector of [fwi] has six
    entries, [0, w, w, w, 0, 0] for the configured width [w]: of the first
    axis's pair only the first entry is zero (the free surface), the
    three entries that follow carry [w], and the third axis's pair is
    zero. *)
Theorem pml_width_vector_spec (w : Q) :
  length (pml_width_vector w) = 6%nat /\
  Forall2 Qeq (pml_width_vector w) [0; w; w; w; 0; 0]%Q.
Proof.
  split; [reflexivity |].
  unfold pml_width_vector; cbn [map].
  repeat constructor; ring.
Qed.

(** ** The leading axis of the model *)

(** C10. [fwi] reshapes [model_init] to [(1, *shape)] exactly when the
    size of its first axis is not 1, and the elements are kept; a model
    whose first axis has size 1 is used as it is, whatever that axis
    stands for. *)
Theorem add_model_axis_spec (model_init : tensor) (d : nat) (rest : list nat) :
  shape model_init = d :: rest ->
  exists model,
    add_model_axis model_init = Ok model /\
    (shape model = 1%nat :: shape model_init <-> d <> 1%nat) /\
    (d = 1%nat -> model = model_init) /\
    data model = data model_init.
Proof.
  intros Hs. unfold add_model_axis. rewrite Hs.
  destruct (Nat.eqb_spec d 1) as [-> | Hd]; cbn [negb].
  - exists model_init. split; [reflexivity |]. split; [| tauto].
    split; [| tauto].
    intros E. rewrite Hs in E. apply (f_equal (@length nat)) in E.
    cbn in E. lia.
  - exists (unsqueeze0 model_init). split; [reflexivity |].
    split; [| split; [contradiction | reflexivity]].
    split; [intros _; exact Hd | intros _; cbn; now rewrite Hs].
Qed.

Lemma add_model_axis_spec_witness :
  exists model,
    add_model_axis (mkTensor [1; 5]%nat [1; 2; 3; 4; 5]%Q) = Ok model /\
    (shape model = [1; 1; 5]%nat <-> 1%nat <> 1%nat) /\
    (1%nat = 1%nat -> model = mkTensor [1; 5]%nat [1; 2; 3; 4; 5]%Q) /\
    data model = [1; 2; 3; 4; 5]%Q.
Proof.
  apply (add_model_axis_spec (mkTensor [1; 5]%nat [1; 2; 3; 4; 5]%Q) 1 [5%nat]).
  reflexivity.
Defined.

(** ** The errors of [pool_model] and of the steps it calls *)





(** ** The temporal window *)

Lemma firstn_add {A} (a b : nat) (xs : list A) :
  firstn (a + b) xs = firstn a xs ++ firstn b (skipn a xs).
Proof.
  revert xs. induction a as [| a IH]; intros xs; [reflexivity |].
  destruct xs as [| x xs]; cbn.
  - now rewrite firstn_nil.
  - now rewrite IH.
Qed.

Lemma concat_chunks {A} (c n : nat) (xs : list A) :
  concat (chunks c n xs) = firstn (n * c) xs.
Proof.
  revert xs. induction n as [| n IH]; intros xs; [reflexivity |].
  cbn [chunks concat Nat.mul]. now rewrite IH, firstn_add.
Qed.

Lemma length_chunks {A} (c n : nat) (xs : list A) :
  length (chunks c n xs) = n.
Proof.
  revert xs. induction n as [| n IH]; intros xs; [reflexivity |].
  cbn. now rewrite IH.
Qed.

Lemma firstn_chunks {A} (k c n : nat) (xs : list A) :
  firstn k (chunks c n xs) = chunks c (Nat.min k n) xs.
Proof.
  revert k xs. induction n as [| n IH]; intros k xs.
  - rewrite Nat.min_0_r. cbn. apply firstn_nil.
  - destruct k as [| k]; [reflexivity |]. cbn. now rewrite IH.
Qed.

Lemma slice_bound_le (n : nat) (i : Z) : (slice_bound n i <= n)%nat.
Proof.
  unfold slice_bound. destruct (Z.ltb_spec i 0); lia.
Qed.

Lemma slice_bound_nonneg (n : nat) (i : Z) :
  0 <= i -> slice_bound n i = Nat.min (Z.to_nat i) n.
Proof.
  intros H. unfold slice_bound. destruct (Z.ltb_spec i 0); [lia | reflexivity].
Qed.

Lemma slice_bound_neg (n : nat) (i : Z) :
  i < 0 -> slice_bound n i = Z.to_nat (Z.max (Z.of_nat n + i) 0).
Proof.
  intros H. unfold slice_bound. destruct (Z.ltb_spec i 0); [reflexivity | lia].
Qed.

Lemma slice_to_nonneg {A} (hi : Z) (xs : list A) :
  0 <= hi -> slice_to hi xs = firstn (Z.to_nat hi) xs.
Proof.
  intros H. unfold slice_to. rewrite slice_bound_nonneg by exact H.
  destruct (Nat.le_ge_cases (Z.to_nat hi) (length xs)) as [Hle | Hge].
  - now rewrite Nat.min_l.
  - rewrite Nat.min_r by exact Hge.
    now rewrite firstn_all, firstn_all2.
Qed.

(** [t[:hi]] keeps the leading [slice_bound d hi] blocks of the first
    axis. *)
Lemma slice0_from_start (hi : Z) (t : tensor) (d : nat) (rest : list nat) :
  shape t = d :: rest ->
  slice0 0 hi t =
    Ok (mkTensor (slice_bound d hi :: rest)
                 (firstn (slice_bound d hi * numel rest) (data t))).
Proof.
  intros Hs. unfold slice0, slice. rewrite Hs.
  rewrite length_chunks.
  replace (slice_bound d 0) with O by (unfold slice_bound; cbn; lia).
  cbn [skipn]. rewrite firstn_chunks, length_chunks, concat_chunks.
  now rewrite (Nat.min_l _ _ (slice_bound_le d hi)).
Qed.

(** What [apply_max_time] returns, whatever the signs of the two lengths. *)
Lemma apply_max_time_eq (batch_data_true src_amp : tensor)
      (dt src_start_time : Q) (max_time : Z)
      (lead : list nat) (L d : nat) (rest : list nat) :
  shape batch_data_true = lead ++ [L] ->
  shape src_amp = d :: rest ->
  ~ (dt == 0)%Q ->
  let n := int (- src_start_time / dt + inject_Z max_time) in
  apply_max_time batch_data_true src_amp dt src_start_time max_time =
    Ok (mkTensor (lead ++ [slice_bound L max_time])
                 (concat (map (slice_to max_time)
                              (chunks L (numel lead) (data batch_data_true)))),
        mkTensor (slice_bound d n :: rest)
                 (firstn (slice_bound d n * numel rest) (data src_amp))).
Proof.
  intros Hd Hw Hdt n. unfold apply_max_time, slice_last_to, max_src_amp_time.
  rewrite Hd, rev_app_distr. cbn [rev app bind].
  rewrite rev_involutive, truediv_ok by exact Hdt. cbn [bind].
  now rewrite (slice0_from_start _ _ _ _ Hw).
Qed.

(** The code truncates the sum [-src_start_time/dt + max_time] toward
    zero; it does not round the quotient. A wavelet that starts 0.75
    samples before time zero, cut for 5 time steps, keeps 5 samples where
    [round(0.75) + 5] is 6. *)
Lemma apply_max_time_not_rounded :
  apply_max_time sample_trace sample_wavelet 1 (- (3 # 4)) 5 =
    Ok (mkTensor [1; 1; 5]%nat [10; 20; 30; 40; 50]%Q,
        mkTensor [5%nat] [1; 2; 3; 4; 5]%Q) /\
  spec_wavelet_length 1 (- (3 # 4)) 5 = 6 /\
  firstn 6 (data sample_wavelet) <> [1; 2; 3; 4; 5]%Q.
Proof. repeat split; vm_compute; discriminate. Qed.

(** C3 (as the code has it). For a time horizon [0 <= max_time <= 2^53]
    the returned data are the first [max_time] samples of every trace
    (all of them when there are fewer); the wavelet is cut to its first
    [n] samples with [n = int(-src_start_time/dt + max_time)], the sum
    truncated toward zero, when that [n] is not negative. The quotient
    and the sum are themselves doubles, so that the program computes them
    without rounding. *)
Theorem apply_max_time_spec (batch_data_true src_amp : tensor)
        (dt src_start_time : Q) (max_time : Z)
        (lead : list nat) (L d : nat) (rest : list nat) :
  shape batch_data_true = lead ++ [L] ->
  shape src_amp = d :: rest ->
  ~ (dt == 0)%Q ->
  is_binary64 (- src_start_time / dt) = true ->
  is_binary64 (- src_start_time / dt + inject_Z max_time) = true ->
  0 <= max_time <= 2 ^ 53 ->
  0 <= int (- src_start_time / dt + inject_Z max_time) <= 2 ^ 53 ->
  let n := Z.to_nat (int (- src_start_time / dt + inject_Z max_time)) in
  apply_max_time batch_data_true src_amp dt src_start_time max_time =
    Ok (mkTensor (lead ++ [Nat.min (Z.to_nat max_time) L])
                 (concat (map (firstn (Z.to_nat max_time))
                              (chunks L (numel lead) (data batch_data_true)))),
        mkTensor (Nat.min n d :: rest)
                 (firstn (Nat.min n d * numel rest) (data src_amp))).
Proof.
  intros Hd Hw Hdt _ _ [Hmt _] [Hn _] n.
  rewrite (apply_max_time_eq _ _ _ _ _ _ _ _ _ Hd Hw Hdt).
  rewrite !slice_bound_nonneg by assumption.
  do 3 f_equal.
  f_equal. apply map_ext. intros row. now apply slice_to_nonneg.
Qed.

Lemma apply_max_time_spec_witness :
  apply_max_time sample_trace sample_wavelet 1 (- (3 # 4)) 5 =
    Ok (mkTensor [1; 1; 5]%nat
                 (concat (map (firstn 5)
                              (chunks 8 1 (data sample_trace)))),
        mkTensor [5%nat] (firstn 5 (data sample_wavelet))).
Proof.
  apply (apply_max_time_spec sample_trace sample_wavelet 1 (- (3 # 4)) 5
                             [1; 1]%nat 8 8 []).
  - reflexivity.
  - reflexivity.
  - discriminate.
  - reflexivity.
  - reflexivity.
  - lia.
  - vm_compute. split; discriminate.
Defined.

(** A wavelet that starts 3 samples after time zero, cut for 1 time step:
    the computed length is -2, as is [round(-3) + 1]; the call returns the
    wavelet without its last two samples. *)
Lemma apply_max_time_negative_length_keeps_samples :
  spec_wavelet_length 1 3 1 = -2 /\
  max_src_amp_time 1 3 1 = Ok (-2) /\
  apply_max_time sample_trace sample_wavelet 1 3 1 =
    Ok (mkTensor [1; 1; 1]%nat [10%Q],
        mkTensor [6%nat] [1; 2; 3; 4; 5; 6]%Q).
Proof. repeat split; vm_compute; reflexivity. Qed.

(** C9 (as the code has it). When the computed wavelet length
    [n = int(-src_start_time/dt + max_time)] is negative the call does not
    fail for it: the slice counts from the end, and the returned wavelet
    is the input without its last [-n] samples, [max(d + n, 0)] of its [d]
    samples; it is empty only when [-n >= d]. The quotient and the sum
    are themselves doubles, so that the program computes them without
    rounding, and [max_time] and [n] are below [2^53] in absolute
    value. *)
Theorem apply_max_time_negative_length (batch_data_true src_amp : tensor)
        (dt src_start_time : Q) (max_time : Z)
        (lead : list nat) (L d : nat) (rest : list nat) :
  shape batch_data_true = lead ++ [L] ->
  shape src_amp = d :: rest ->
  ~ (dt == 0)%Q ->
  is_binary64 (- src_start_time / dt) = true ->
  is_binary64 (- src_start_time / dt + inject_Z max_time) = true ->
  - 2 ^ 53 <= max_time <= 2 ^ 53 ->
  - 2 ^ 53 <= int (- src_start_time / dt + inject_Z max_time) < 0 ->
  let n := int (- src_start_time / dt + inject_Z max_time) in
  let kept := Z.to_nat (Z.max (Z.of_nat d + n) 0) in
  exists batch_data_true',
    apply_max_time batch_data_true src_amp dt src_start_time max_time =
      Ok (batch_data_true',
          mkTensor (kept :: rest)
                   (firstn (kept * numel rest) (data src_amp))).
Proof.
  intros Hd Hw Hdt _ _ _ [_ Hn] n kept.
  rewrite (apply_max_time_eq _ _ _ _ _ _ _ _ _ Hd Hw Hdt).
  fold n. rewrite (slice_bound_neg d n Hn). fold kept.
  eexists. reflexivity.
Qed.

Lemma apply_max_time_negative_length_witness :
  exists batch_data_true',
    apply_max_time sample_trace sample_wavelet 1 3 1 =
      Ok (batch_data_true',
          mkTensor [6%nat] (firstn 6 (data sample_wavelet))).
Proof.
  apply (apply_max_time_negative_length sample_trace sample_wavelet 1 3 1
                                        [1; 1]%nat 8 8 []).
  - reflexivity.
  - reflexivity.
  - discriminate.
  - reflexivity.
  - reflexivity.
  - lia.
  - vm_compute. split; [discriminate | reflexivity].
Defined.

(** ** The survey padding *)

Lemma Qmax_list_ge (xs : list Q) (x : Q) : (x <= Qmax_list x xs)%Q.
Proof.
  unfold Qmax_list. revert x. induction xs as [| y ys IH]; intros x; cbn.
  - apply Qle_refl.
  - eapply Qle_trans; [apply Q.le_max_l | apply IH].
Qed.

Lemma dim_cons (t : tensor) (d : nat) (rest : list nat) :
  shape t = d :: rest -> dim t - 1 = Z.of_nat (length rest).
Proof. intros H. unfold dim. rewrite H. cbn [length]. lia. Qed.

(** The vector [calc_survey_pad] returns, written out. *)
Lemma calc_survey_pad_eq (max_time : Z) (dt : Q) (model : tensor) (cap : Q)
      (d : nat) (rest : list nat) (m : Q) :
  shape model = d :: rest ->
  max_item model = Ok m ->
  let x := (1 * (m * inject_Z max_time * dt / 2))%Q in
  calc_survey_pad max_time dt model cap =
    Ok (if (1 <? length rest)%nat
        then repeat x 2 ++ repeat (Qmin x cap) (2 * length rest - 2)
        else repeat x (2 * length rest)).
Proof.
  intros Hs Hm x. unfold calc_survey_pad, ones_times.
  rewrite Hm, (dim_cons _ _ _ Hs). cbn [bind].
  destruct (Z.ltb_spec (2 * Z.of_nat (length rest)) 0) as [Hneg | _]; [lia |].
  cbn [bind]. rewrite map_repeat. fold x.
  replace (Z.to_nat (2 * Z.of_nat (length rest)))
    with (2 * length rest)%nat by lia.
  destruct (Z.ltb_spec 1 (Z.of_nat (length rest))) as [H1 | H1];
    destruct (Nat.ltb_spec 1 (length rest)) as [H2 | H2]; try lia;
    [| reflexivity].
  replace (2 * length rest)%nat with (2 + (2 * length rest - 2))%nat at 1 2
    by lia.
  rewrite repeat_app, firstn_app, skipn_app.
  cbn [repeat length firstn skipn Nat.sub app].
  rewrite map_repeat. reflexivity.
Qed.

(** With a negative cap the capped entries are negative although the
    velocities, [dt] and [max_time] are not; and a model without elements
    has no maximum. *)
Lemma calc_survey_pad_negative_cap :
  (exists survey_pad,
      calc_survey_pad 10 1 (mkTensor [1; 2; 2]%nat [1; 2; 3; 4]%Q) (-1)
        = Ok survey_pad /\
      map Qred survey_pad = [20; 20; -1; -1]%Q /\
      (nth 2 survey_pad 0 < 0)%Q) /\
  calc_survey_pad 10 1 (mkTensor [1; 0]%nat []) 500 = Raise RuntimeError.
Proof.
  split; [eexists; split; [reflexivity |] |]; repeat split; vm_compute;
    reflexivity.
Qed.

(** C6 (as the code has it). For a model with at least one axis and one
    element, [calc_survey_pad] returns [2 * ndims] entries; the first
    axis's pair is [max(model) * max_time * dt / 2]; with one spatial axis
    nothing is clamped; with two or more, every entry from index 2 on is
    the smaller of that distance and [max_horiz_survey_pad], hence at most
    the cap; and all entries are non-negative when the velocities, [dt],
    [max_time] and also [max_horiz_survey_pad] are. *)
Theorem calc_survey_pad_spec (max_time : Z) (dt : Q) (model : tensor)
        (max_horiz_survey_pad : Q) (d : nat) (rest : list nat) :
  shape model = d :: rest ->
  data model <> [] ->
  exists m survey_pad,
    max_item model = Ok m /\
    calc_survey_pad max_time dt model max_horiz_survey_pad = Ok survey_pad /\
    let ndims := length rest in
    let pad_dist := (m * inject_Z max_time * dt / 2)%Q in
    length survey_pad = (2 * ndims)%nat /\
    (forall i, (i < 2)%nat -> (i < 2 * ndims)%nat ->
               (nth i survey_pad 0 == pad_dist)%Q) /\
    (ndims = 1%nat -> Forall (fun p => p == pad_dist)%Q survey_pad) /\
    ((2 <= ndims)%nat ->
     forall i, (2 <= i < 2 * ndims)%nat ->
               (nth i survey_pad 0 == Qmin pad_dist max_horiz_survey_pad)%Q /\
               (nth i survey_pad 0 <= max_horiz_survey_pad)%Q) /\
    (Forall (Qle 0) (data model) -> (0 <= dt)%Q -> 0 <= max_time ->
     (0 <= max_horiz_survey_pad)%Q ->
     Forall (Qle 0) survey_pad).
Proof.
  intros Hs Hne.
  destruct (data model) as [| v vs] eqn:Hdata; [contradiction |].
  exists (Qmax_list v vs).
  assert (Hm : max_item model = Ok (Qmax_list v vs))
    by (unfold max_item; now rewrite Hdata).
  pose proof (calc_survey_pad_eq max_time dt model max_horiz_survey_pad
                                 d rest _ Hs Hm) as Heq.
  cbv zeta in Heq. eexists. split; [exact Hm |]. split; [exact Heq |].
  cbv zeta.
  set (pad := (Qmax_list v vs * inject_Z max_time * dt / 2)%Q).
  assert (Hx : (1 * pad == pad)%Q) by ring.
  destruct (Nat.ltb_spec 1 (length rest)) as [Hlt | Hge].
  - (* two or more spatial axes *)
    split; [rewrite length_app, !repeat_length; lia |].
    split; [| split; [lia |]]; [| split].
    + intros i Hi _. rewrite app_nth1 by (rewrite repeat_length; lia).
      rewrite nth_repeat_lt by lia. exact Hx.
    + intros _ i Hi. rewrite app_nth2 by (rewrite repeat_length; lia).
      rewrite repeat_length, nth_repeat_lt by lia.
      split; [now rewrite Hx | apply Q.le_min_r].
    + intros Hv Hdt Hmt Hcap.
      assert (Hpad : (0 <= 1 * pad)%Q).
      { rewrite Hx. unfold pad. apply Qdiv_nonneg; [| reflexivity].
        repeat apply Qmult_le_0_compat; try assumption.
        - eapply Qle_trans; [| apply Qmax_list_ge]. now inversion Hv.
        - unfold Qle, inject_Z; simpl. lia. }
      apply Forall_app. split; apply Forall_forall; intros p Hp;
        apply repeat_spec in Hp; subst p; [exact Hpad |].
      now apply Q.min_glb.
  - (* at most one spatial axis *)
    split; [apply repeat_length |].
    split; [| split; [| split; [lia |]]].
    + intros i _ Hi. rewrite nth_repeat_lt by lia. exact Hx.
    + intros _. apply Forall_forall. intros p Hp.
      apply repeat_spec in Hp. now subst p.
    + intros Hv Hdt Hmt _. apply Forall_forall. intros p Hp.
      apply repeat_spec in Hp. subst p.
      rewrite Hx. unfold pad. apply Qdiv_nonneg; [| reflexivity].
      repeat apply Qmult_le_0_compat; try assumption.
      * eapply Qle_trans; [| apply Qmax_list_ge]. now inversion Hv.
      * unfold Qle, inject_Z; simpl. lia.
Qed.

Lemma calc_survey_pad_spec_witness :
  exists m survey_pad,
    max_item (mkTensor [1; 2; 2]%nat [1; 2; 3; 4]%Q) = Ok m /\
    calc_survey_pad 10 1 (mkTensor [1; 2; 2]%nat [1; 2; 3; 4]%Q) 15
      = Ok survey_pad /\
    let ndims := 2%nat in
    let pad_dist := (m * inject_Z 10 * 1 / 2)%Q in
    length survey_pad = (2 * ndims)%nat /\
    (forall i, (i < 2)%nat -> (i < 2 * ndims)%nat ->
               (nth i survey_pad 0 == pad_dist)%Q) /\
    (ndims = 1%nat -> Forall (fun p => p == pad_dist)%Q survey_pad) /\
    ((2 <= ndims)%nat ->
     forall i, (2 <= i < 2 * ndims)%nat ->
               (nth i survey_pad 0 == Qmin pad_dist 15)%Q /\
               (nth i survey_pad 0 <= 15)%Q) /\
    (Forall (Qle 0) [1; 2; 3; 4]%Q -> (0 <= 1)%Q -> 0 <= 10 ->
     (0 <= 15)%Q ->
     Forall (Qle 0) survey_pad).
Proof.
  apply (calc_survey_pad_spec 10 1 (mkTensor [1; 2; 2]%nat [1; 2; 3; 4]%Q)
                              15 1 [2; 2]%nat).
  - reflexivity.
  - discriminate.
Defined.

(** ** The decimation factor of the model *)






Lemma existsb_zero_false (sh : list nat) :
  Forall (fun d => d <> 0%nat) sh -> existsb (Nat.eqb 0) sh = false.
Proof.
  intros H. induction H as [| d sh Hd _ IH]; [reflexivity |].
  cbn [existsb]. rewrite IH, orb_false_r. apply Nat.eqb_neq. lia.
Qed.

(** A tensor without an empty axis passes the check of the pooling. *)
Lemma nonempty_axes_ok (nsp : nat) (sh : list nat) :
  Forall (fun d => d <> 0%nat) sh ->
  existsb (Nat.eqb 0) (if (length sh =? nsp + 2)%nat then tl sh else sh)
  = false.
Proof.
  intros H. apply existsb_zero_false.
  destruct (length sh =? nsp + 2)%nat; [| exact H].
  destruct H; [constructor | assumption].
Qed.









(** ** Pooling along time *)

Lemma nth_error_flat_map_block {A B} (f : A -> list B) (n : nat)
      (xs : list A) (i j : nat) (x : A) :
  (forall y, In y xs -> length (f y) = n) ->
  nth_error xs i = Some x -> (j < n)%nat ->
  nth_error (flat_map f xs) (i * n + j) = nth_error (f x) j.
Proof.
  revert i. induction xs as [| a xs IH]; intros i Hlen Hi Hj.
  - destruct i; discriminate.
  - destruct i as [| i]; cbn [flat_map].
    + injection Hi as ->. cbn [Nat.mul Nat.add].
      apply nth_error_app1. rewrite Hlen by (now left). exact Hj.
    + cbn [nth_error] in Hi.
      rewrite nth_error_app2 by (rewrite Hlen by (now left); cbn; lia).
      rewrite Hlen by (now left).
      replace (S i * n + j - n)%nat with (i * n + j)%nat by (cbn; lia).
      apply IH; [| exact Hi | exact Hj].
      intros y Hy. apply Hlen. now right.
Qed.

Lemma length_multi_indices (sh : list nat) :
  length (multi_indices sh) = numel sh.
Proof.
  induction sh as [| d rest IH]; [reflexivity |].
  cbn [multi_indices numel fold_right].
  assert (H : forall (a : nat),
             length (flat_map (fun i => map (cons i) (multi_indices rest))
                              (seq a d)) = (d * numel rest)%nat).
  { induction d as [| d IHd]; intros a; [reflexivity |].
    cbn [seq flat_map]. rewrite length_app, length_map, IHd, IH. cbn. lia. }
  apply H.
Qed.

Lemma offset_lt (sh idx : list nat) :
  valid_index sh idx -> (offset sh idx < numel sh)%nat.
Proof.
  intros H. induction H as [| d i rest idx' Hi _ IH]; [cbn; lia |].
  cbn [offset numel fold_right]. fold (numel rest). nia.
Qed.

(** The multi-indices are listed in row-major order. *)
Lemma nth_error_multi_indices (sh idx : list nat) :
  valid_index sh idx ->
  nth_error (multi_indices sh) (offset sh idx) = Some idx.
Proof.
  intros H. induction H as [| d i rest idx' Hi Hv IH]; [reflexivity |].
  cbn [multi_indices offset].
  rewrite (nth_error_flat_map_block _ (numel rest) _ i _ i).
  - rewrite nth_error_map, IH. reflexivity.
  - intros y _. now rewrite length_map, length_multi_indices.
  - rewrite nth_error_seq. destruct (Nat.ltb_spec i d); [reflexivity | lia].
  - now apply offset_lt.
Qed.

Lemma get_map_multi_indices (sh idx : list nat) (f : list nat -> Q) :
  valid_index sh idx ->
  get (mkTensor sh (map f (multi_indices sh))) idx = f idx.
Proof.
  intros H. unfold get. cbn [shape data].
  apply nth_error_nth.
  rewrite nth_error_map, nth_error_multi_indices by exact H.
  reflexivity.
Qed.

Lemma pooled_length_floor (k p : Z) (L : nat) :
  0 < k -> pooled_length k p L = Z.to_nat ((Z.of_nat L + 2 * p) / k).
Proof.
  intros Hk. unfold pooled_length. f_equal.
  replace (Z.of_nat L + 2 * p - k) with (Z.of_nat L + 2 * p + (-1) * k) by lia.
  rewrite Z.div_add by lia. lia.
Qed.

(** What [AvgPool1d] returns on an input with one or two leading axes. *)
Lemma avg_pool1d_eq (k p : Z) (t : tensor) (lead : list nat) (L : nat) :
  shape t = lead ++ [L] ->
  (length lead = 1 \/ length lead = 2)%nat ->
  Forall (fun d => d <> 0%nat) (shape t) ->
  0 < k -> 0 <= p -> 2 * p <= k -> k <= Z.of_nat L + 2 * p ->
  let out := lead ++ [Z.to_nat ((Z.of_nat L + 2 * p) / k)] in
  apply_pool AvgPool1d k p t =
    Ok (mkTensor out (map (window_mean 1 k p t) (multi_indices out))).
Proof.
  intros Hs Hl Hnz Hk Hp Hpk HL out.
  unfold apply_pool, avg_pool. cbn [pooled_axes].
  rewrite (nonempty_axes_ok 1 _ Hnz).
  rewrite Hs, length_app. cbn [length].
  replace ((length lead + 1 =? 1 + 1)%nat || (length lead + 1 =? 1 + 2)%nat)
    with true
    by (symmetry; apply orb_true_iff; rewrite !Nat.eqb_eq; lia).
  cbn [negb].
  destruct (Z.leb_spec k 0); [lia |].
  destruct (Z.ltb_spec p 0); [lia |].
  destruct (Z.ltb_spec k (2 * p)); [lia |]. cbn [orb].
  replace (length lead + 1 - 1)%nat with (length lead) by lia.
  rewrite firstn_app, skipn_app, firstn_all, skipn_all, Nat.sub_diag.
  cbn [firstn skipn app map]. rewrite app_nil_r.
  rewrite pooled_length_floor by exact Hk.
  assert (Hpos : 1 <= (Z.of_nat L + 2 * p) / k).
  { apply Z.div_le_lower_bound; lia. }
  cbn [existsb]. rewrite orb_false_r.
  destruct (Nat.eqb_spec 0 (Z.to_nat ((Z.of_nat L + 2 * p) / k))); [lia |].
  reflexivity.
Qed.

Lemma multi_indices_1 (k : nat) :
  multi_indices [k] = map (fun w => [w]) (seq 0 k).
Proof.
  cbn [multi_indices]. generalize 0%nat.
  induction k as [| k IH]; intros a; [reflexivity |].
  cbn [seq flat_map map app]. now rewrite IH.
Qed.

(** One output of [AvgPool1d]: the sum of [k] consecutive elements of the
    padded input, over [k]. *)
Lemma window_mean_1d (k p : Z) (t : tensor) (lead : list nat) (L : nat)
      (idx : list nat) (j : nat) :
  shape t = lead ++ [L] -> length idx = length lead ->
  (window_mean 1 k p t (idx ++ [j]) ==
   Qsum (map (fun w => get_padded 1 t idx
                                  [(Z.of_nat j * k + Z.of_nat w - p)%Z])
             (seq 0 (Z.to_nat k)))
   / inject_Z k)%Q.
Proof.
  intros Hs Hl. unfold window_mean. rewrite Hs, length_app. cbn [length].
  replace (length lead + 1 - 1)%nat with (length idx) by lia.
  rewrite firstn_app, skipn_app, firstn_all, skipn_all, Nat.sub_diag.
  cbn [firstn skipn app repeat]. rewrite app_nil_r.
  rewrite multi_indices_1, map_map. cbn [window_pos combine map fst snd].
  rewrite Z.pow_1_r. reflexivity.
Qed.

(** Eight samples pooled by 3 give 2 outputs, not [ceil(8/3) = 3]: the
    last two samples are dropped. With a start time of one sample and a
    factor of 2 the padding is 1 on both sides: the last of the 5 outputs
    is the mean of the last sample and a zero on the right. With a start
    time of two samples and a factor of 3 the padding is more than half
    the window and the pooling raises. *)
Lemma pool_data_floor_two_sided :
  observe (pool_data sample_trace 3 1 0)
    = Ok ([1; 1; 2]%nat, [20; 50]%Q, 3%Q) /\
  spec_pool_length 8 0 3 = 3 /\
  observe (pool_data sample_trace 2 1 1)
    = Ok ([1; 1; 5]%nat, [5; 25; 45; 65; 40]%Q, 2%Q) /\
  pool_data sample_trace 3 1 2 = Raise RuntimeError.
Proof. repeat split; vm_compute; reflexivity. Qed.

(** C4 (as the code has it). On well-formed data with two or three
    axes, none of them empty, [pool_data] pads the time axis with
    [p = int(start_time/dt) mod num_pool] zeros on the left and on the
    right, the quotient truncated toward zero (a quotient that is itself
    a double, so that the program divides without rounding); when
    [2*p <= num_pool] and the padded length [L + 2*p] is at least
    [num_pool] it returns [floor((L + 2*p) / num_pool)] samples per trace,
    each the sum of [num_pool] consecutive samples of the padded input
    over [num_pool], and the time step [dt * num_pool]. *)
Theorem pool_data_spec (data : tensor) (num_pool : Z) (dt start_time : Q)
        (lead : list nat) (L : nat) :
  well_formed data ->
  shape data = lead ++ [L] ->
  (length lead = 1 \/ length lead = 2)%nat ->
  Forall (fun d => d <> 0%nat) (shape data) ->
  ~ (dt == 0)%Q ->
  is_binary64 (start_time / dt) = true ->
  0 < num_pool < 2 ^ 31 ->
  let p := int (start_time / dt) mod num_pool in
  2 * p <= num_pool ->
  num_pool <= Z.of_nat L + 2 * p ->
  let L' := Z.to_nat ((Z.of_nat L + 2 * p) / num_pool) in
  exists data_pool,
    pool_data data num_pool dt start_time
      = Ok (data_pool, (dt * inject_Z num_pool)%Q) /\
    shape data_pool = lead ++ [L'] /\
    forall idx j,
      valid_index lead idx -> (j < L')%nat ->
      (get data_pool (idx ++ [j]) ==
       Qsum (map (fun w => get_padded 1 data idx
                             [(Z.of_nat j * num_pool + Z.of_nat w - p)%Z])
                 (seq 0 (Z.to_nat num_pool)))
       / inject_Z num_pool)%Q.
Proof.
  intros _ Hs Hl Hnz Hdt _ [Hk _] p Hp HL L'.
  assert (Hp0 : 0 <= p) by (apply Z.mod_pos_bound; lia).
  unfold pool_data. rewrite (truediv_ok _ _ Hdt). cbn [bind].
  unfold imod. destruct (Z.eqb_spec num_pool 0); [lia |]. cbn [bind].
  fold p.
  rewrite (avg_pool1d_eq num_pool p data lead L Hs Hl Hnz Hk Hp0 Hp HL).
  cbv zeta. fold L'. cbn [bind].
  eexists. split; [reflexivity |]. split; [reflexivity |].
  intros idx j Hidx Hj.
  rewrite get_map_multi_indices.
  - apply (window_mean_1d num_pool p data lead L idx j Hs).
    symmetry. apply (Forall2_length Hidx).
  - apply Forall2_app; [exact Hidx |]. constructor; [exact Hj | constructor].
Qed.

Lemma pool_data_spec_witness :
  exists data_pool,
    pool_data sample_trace 2 1 1 = Ok (data_pool, (1 * inject_Z 2)%Q) /\
    shape data_pool = [1; 1; 5]%nat /\
    forall idx j,
      valid_index [1; 1]%nat idx -> (j < 5)%nat ->
      (get data_pool (idx ++ [j]) ==
       Qsum (map (fun w => get_padded 1 sample_trace idx
                             [(Z.of_nat j * 2 + Z.of_nat w - 1)%Z])
                 (seq 0 2))
       / inject_Z 2)%Q.
Proof.
  apply (pool_data_spec sample_trace 2 1 1 [1; 1]%nat 8).
  - reflexivity.
  - reflexivity.
  - right. reflexivity.
  - repeat constructor; discriminate.
  - discriminate.
  - reflexivity.
  - lia.
  - vm_compute. discriminate.
  - vm_compute. discriminate.
Defined.

(** ** The window of [pool_model] *)

Lemma multi_indices_valid (sh idx : list nat) :
  In idx (multi_indices sh) -> valid_index sh idx.
Proof.
  revert idx. induction sh as [| d rest IH]; intros idx Hin.
  - cbn in Hin. destruct Hin as [<- | []]. constructor.
  - cbn [multi_indices] in Hin. apply in_flat_map in Hin.
    destruct Hin as (i & Hi & Hin). apply in_map_iff in Hin.
    destruct Hin as (idx' & <- & Hin'). apply in_seq in Hi.
    constructor; [lia | now apply IH].
Qed.







(** ** The inversion loop *)

(** A single stage runs although two are asked for: on the small survey
    with [num_max_time = 2] and one epoch, [fwi] returns after one call of
    [calc_survey_pad], for the horizon [int(8 / 2) = 4], and one epoch;
    there is no stage 1 with the horizon 8. *)
Lemma fwi_runs_one_stage_of_two :
  (exists src_amp model, snd (sample_fwi 2 1) = Ok (src_amp, model)) /\
  stages (fst (sample_fwi 2 1)) = 1%nat /\
  epochs (fst (sample_fwi 2 1)) = 1%nat /\
  filter is_stage (fst (sample_fwi 2 1)) = [CalcSurveyPad 0 4] /\
  ~ In (CalcSurveyPad 1 8) (fst (sample_fwi 2 1)).
Proof.
  split; [eexists _, _; vm_compute; reflexivity |].
  split; [vm_compute; reflexivity |].
  split; [vm_compute; reflexivity |].
  split; [vm_compute; reflexivity |].
  vm_compute. intros H.
  repeat (destruct H as [H | H]; [discriminate H |]). exact H.
Qed.

Section LoopProperties.

Variable Optim : Type.
Variable Adam : list (param * Q) -> result Optim.
Variable zero_grad : Optim -> Optim.
Variable step : Optim -> tensor -> tensor -> Optim * tensor * tensor.
Variable propagate_backward :
  tensor -> Q -> list Q -> list Q ->
  tensor -> tensor -> tensor -> Q -> tensor ->
  Optim -> result (Optim * Q).

(** *** Steps that begin no stage, whether they complete or raise *)

Lemma quiet_ret {A} (a : A) : quiet (ret (Optim:=Optim) a).
Proof. intros s. reflexivity. Qed.

Lemma quiet_lift {A} (r : result A) : quiet (lift (Optim:=Optim) r).
Proof. intros s. reflexivity. Qed.

Lemma quiet_emit (e : event) :
  is_stage e = false -> quiet (emit (Optim:=Optim) e).
Proof.
  intros He s. unfold emit, stages. cbn [fst trace].
  rewrite filter_app, length_app. cbn [filter]. rewrite He. cbn. lia.
Qed.

Lemma quiet_seq {A B} (c : loop Optim A) (k : A -> loop Optim B) :
  quiet c -> (forall a, quiet (k a)) -> quiet (seq_loop c k).
Proof.
  intros Hc Hk s. unfold seq_loop. specialize (Hc s).
  destruct (c s) as [s' [a | e]]; cbn [fst] in *; [| exact Hc].
  now rewrite Hk.
Qed.

Lemma quiet_for_each {A B} (xs : list A) (body : A -> B -> loop Optim B) :
  (forall x acc, quiet (body x acc)) ->
  forall acc, quiet (for_each xs body acc).
Proof.
  intros Hbody. induction xs as [| x xs IH]; intros acc; cbn [for_each].
  - apply quiet_ret.
  - apply quiet_seq; [apply Hbody | exact IH].
Qed.

(** *** What a step adds to the trace when it completes *)

Lemma yields_weaken {A} (c : loop Optim A) (P P' : A -> list event -> Prop) :
  yields c P -> (forall a t, P a t -> P' a t) -> yields c P'.
Proof.
  intros Hc HP s s' a Hrun. destruct (Hc s s' a Hrun) as (t & Ht & Hp).
  exists t. auto.
Qed.

Lemma yields_lift {A} (r : result A) :
  yields (lift (Optim:=Optim) r) (fun a t => r = Ok a /\ t = []).
Proof.
  intros s s' a Hrun. unfold lift in Hrun. injection Hrun as <- ->.
  exists []. now rewrite app_nil_r.
Qed.

Lemma yields_emit (e : event) :
  yields (emit (Optim:=Optim) e) (fun _ t => t = [e]).
Proof.
  intros s s' a Hrun. unfold emit in Hrun. injection Hrun as <-.
  exists [e]. split; reflexivity.
Qed.

Lemma yields_seq {A B} (c : loop Optim A) (k : A -> loop Optim B)
      (P : A -> list event -> Prop) (Q : A -> B -> list event -> Prop) :
  yields c P -> (forall a, yields (k a) (Q a)) ->
  yields (seq_loop c k)
         (fun b t => exists a t1 t2, P a t1 /\ Q a b t2 /\ t = t1 ++ t2).
Proof.
  intros Hc Hk s s' b Hrun. unfold seq_loop in Hrun.
  destruct (c s) as [s1 [a | e]] eqn:Hcs; [| discriminate].
  destruct (Hc s s1 a Hcs) as (t1 & Ht1 & Hp).
  destruct (Hk a s1 s' b Hrun) as (t2 & Ht2 & Hq).
  exists (t1 ++ t2). split.
  - now rewrite Ht2, Ht1, app_assoc.
  - exists a, t1, t2. auto.
Qed.

Lemma yields_for_each {A B} (xs : list A) (body : A -> B -> loop Optim B)
      (R : A -> list event -> Prop) :
  (forall x acc, yields (body x acc) (fun _ t => R x t)) ->
  forall acc,
    yields (for_each xs body acc)
           (fun _ t => exists ts, Forall2 R xs ts /\ t = concat ts).
Proof.
  intros Hbody. induction xs as [| x xs IH]; intros acc; cbn [for_each].
  - intros s s' a Hrun. unfold ret in Hrun. injection Hrun as <- _.
    exists []. split; [now rewrite app_nil_r |].
    exists []. split; [constructor | reflexivity].
  - eapply yields_weaken.
    + apply (yields_seq _ _ _ _ (Hbody x acc) IH).
    + cbn beta. intros a t (a' & t1 & t2 & H1 & (ts & Hts & ->) & ->).
      exists (t1 :: ts). split; [now constructor | reflexivity].
Qed.

Lemma Forall2_eq_flat_map {A} (g : A -> list event) (xs : list A)
      (ts : list (list event)) :
  Forall2 (fun x t => t = g x) xs ts -> concat ts = flat_map g xs.
Proof.
  intros H. induction H as [| x t xs ts -> _ IH]; [reflexivity |].
  cbn. now rewrite IH.
Qed.

Lemma keeps_trace_quiet {A} (c : loop Optim A) : keeps_trace c -> quiet c.
Proof. intros H s. now rewrite H. Qed.

Lemma keeps_trace_yields {A} (c : loop Optim A) :
  keeps_trace c -> yields c (fun _ t => t = []).
Proof.
  intros H s s' a Hrun. specialize (H s). rewrite Hrun in H. cbn [fst] in H.
  exists []. now rewrite app_nil_r.
Qed.

Section Bodies.

Variables (ds : dataset) (src_start_time : Q).
Variables (num_pool_data num_max_time num_epochs
           num_superbatches num_batches : Z).
Variables (pml_width : list Q) (max_horiz_survey_pad : Q).
Variables (max_time : Z) (survey_pad : list Q).

Let batch_body' :=
  batch_body Optim propagate_backward ds src_start_time num_pool_data
             num_superbatches num_batches pml_width max_time survey_pad.
Let superbatch_body' :=
  superbatch_body Optim zero_grad step propagate_backward ds
                  src_start_time num_pool_data num_superbatches
                  num_batches pml_width max_time survey_pad.
Let epoch_body' :=
  epoch_body Optim zero_grad step propagate_backward ds src_start_time
             num_pool_data num_superbatches num_batches pml_width
             max_time survey_pad.
Lemma run_batch_keeps_trace (epoch_loss : Q)
      (batch_data_true batch_src_locs batch_rec_locs : tensor) :
  keeps_trace
    (fun s : loop_state Optim =>
       match run_batch Optim propagate_backward ds (src_amp Optim s)
                       src_start_time (model Optim s) num_pool_data
                       batch_data_true batch_src_locs batch_rec_locs
                       max_time pml_width survey_pad (optimizer Optim s)
       with
       | Ok (opt, loss) =>
           (mkState Optim (src_amp Optim s) (model Optim s) opt (trace s),
            Ok (epoch_loss + loss)%Q)
       | Raise e => (s, Raise e)
       end).
Proof.
  intros s. destruct (run_batch _ _ _ _ _ _ _ _ _ _ _ _ _ _)
    as [[opt loss] | e]; reflexivity.
Qed.

Lemma batch_body_quiet (epoch sb b : Z) (acc : Q) :
  quiet (batch_body' epoch sb b acc).
Proof.
  apply quiet_seq; [apply quiet_lift |].
  intros [[d sl] rl]. apply quiet_seq; [now apply quiet_emit |].
  intros ?. apply keeps_trace_quiet, run_batch_keeps_trace.
Qed.

Lemma batch_body_yields (epoch sb b : Z) (acc : Q) :
  yields (batch_body' epoch sb b acc)
         (fun _ t => t = [RunBatch epoch sb b]).
Proof.
  eapply yields_weaken.
  - apply yields_seq with (Q := fun _ _ t => t = [RunBatch epoch sb b]);
      [apply yields_lift |].
    intros [[d sl] rl]. eapply yields_weaken.
    + apply yields_seq; [apply yields_emit |].
      intros ?. apply keeps_trace_yields, run_batch_keeps_trace.
    + cbn beta. intros ? t (? & t1 & t2 & -> & -> & ->). reflexivity.
  - cbn beta. intros ? t (? & t1 & t2 & (? & ->) & -> & ->). reflexivity.
Qed.

Lemma zero_grad_keeps_trace :
  keeps_trace
    (fun s : loop_state Optim =>
       (mkState Optim (src_amp Optim s) (model Optim s)
                (zero_grad (optimizer Optim s)) (trace s), Ok tt)).
Proof. intros s. reflexivity. Qed.

Lemma step_keeps_trace (epoch_loss : Q) :
  keeps_trace
    (fun s : loop_state Optim =>
       let '(opt, src_amp', model') :=
         step (optimizer Optim s) (src_amp Optim s) (model Optim s) in
       (mkState Optim src_amp' model' opt (trace s), Ok epoch_loss)).
Proof. intros s. destruct (step _ _ _) as [[opt a] m]. reflexivity. Qed.

Lemma superbatch_body_quiet (epoch sb : Z) (acc : Q) :
  quiet (superbatch_body' epoch sb acc).
Proof.
  apply quiet_seq; [now apply quiet_emit |]. intros ?.
  apply quiet_seq; [apply keeps_trace_quiet, zero_grad_keeps_trace |].
  intros ?.
  apply quiet_seq; [apply quiet_for_each; intros; apply batch_body_quiet |].
  intros loss. apply quiet_seq; [now apply quiet_emit |]. intros ?.
  apply keeps_trace_quiet, step_keeps_trace.
Qed.

Lemma superbatch_body_yields (epoch sb : Z) (acc : Q) :
  yields (superbatch_body' epoch sb acc)
         (fun _ t => t = superbatch_trace num_batches epoch sb).
Proof.
  eapply yields_weaken.
  - apply yields_seq; [apply yields_emit |]. intros ?.
    apply yields_seq;
      [apply keeps_trace_yields, zero_grad_keeps_trace |]. intros ?.
    apply yields_seq.
    + apply yields_for_each
        with (R := fun b t => t = [RunBatch epoch sb b]).
      intros b acc'. apply batch_body_yields.
    + intros loss. apply yields_seq; [apply yields_emit |]. intros ?.
      apply keeps_trace_yields, step_keeps_trace.
  - cbn beta.
    intros ? t (? & t1 & t2 & -> & (? & t3 & t4 & -> &
                (loss & t5 & t6 & (ts & Hts & ->) &
                 (? & t7 & t8 & -> & -> & ->) & ->) & ->) & ->).
    unfold superbatch_trace. cbn [app]. apply f_equal.
    rewrite (Forall2_eq_flat_map _ _ _ Hts). apply (f_equal (fun l => l ++ _)).
    clear. induction (range num_batches) as [| b bs IH]; [reflexivity |].
    cbn. now rewrite IH.
Qed.

Lemma epoch_body_quiet (epoch : Z) (u : unit) :
  quiet (epoch_body' epoch u).
Proof.
  apply quiet_seq;
    [apply quiet_for_each; intros; apply superbatch_body_quiet |].
  intros loss. now apply quiet_emit.
Qed.

Lemma epoch_body_yields (epoch : Z) (u : unit) :
  yields (epoch_body' epoch u)
         (fun _ t => exists loss,
              t = epoch_trace num_superbatches num_batches (epoch, loss)).
Proof.
  eapply yields_weaken.
  - apply yields_seq.
    + apply yields_for_each
        with (R := fun sb t => t = superbatch_trace num_batches epoch sb).
      intros sb acc. apply superbatch_body_yields.
    + intros loss. apply yields_emit.
  - cbn beta. intros ? t (loss & t1 & t2 & (ts & Hts & ->) & -> & ->).
    exists loss. unfold epoch_trace. cbn [fst snd].
    now rewrite (Forall2_eq_flat_map _ _ _ Hts).
Qed.

End Bodies.

(** *** Steps that begin at most [n] stages *)

Lemma quiet_begins_none {A} (c : loop Optim A) :
  quiet c -> begins_at_most 0 c.
Proof. intros H s. rewrite H. lia. Qed.

Lemma begins_at_most_seq {A B} (n m : nat) (c : loop Optim A)
      (k : A -> loop Optim B) :
  begins_at_most n c -> (forall a, begins_at_most m (k a)) ->
  begins_at_most (n + m) (seq_loop c k).
Proof.
  intros Hc Hk s. unfold seq_loop. specialize (Hc s).
  destruct (c s) as [s' [a | e]]; cbn [fst] in *; [| lia].
  specialize (Hk a s'). lia.
Qed.

Lemma begins_at_most_emit (e : event) :
  begins_at_most 1 (emit (Optim:=Optim) e).
Proof.
  intros s. unfold emit, stages. cbn [fst trace].
  rewrite filter_app, length_app. cbn [filter].
  destruct (is_stage e); cbn; lia.
Qed.

Lemma Forall2_epoch_traces (nsb nb : Z) (xs : list Z)
      (ts : list (list event)) :
  Forall2 (fun e t => exists loss, t = epoch_trace nsb nb (e, loss)) xs ts ->
  exists losses,
    length losses = length xs /\
    concat ts = flat_map (epoch_trace nsb nb) (combine xs losses).
Proof.
  intros H. induction H as [| e t xs ts [loss ->] _ (losses & Hlen & IH)].
  - exists []. split; reflexivity.
  - exists (loss :: losses). split; [cbn; now rewrite Hlen |].
    cbn. now rewrite IH.
Qed.

Section Stage.

Variables (ds : dataset) (src_start_time : Q).
Variables (num_pool_data num_max_time num_epochs
           num_superbatches num_batches : Z).
Variables (pml_width : list Q) (max_horiz_survey_pad : Q).

Let stage_body' :=
  stage_body Optim zero_grad step propagate_backward ds src_start_time
             num_pool_data num_max_time num_epochs num_superbatches
             num_batches pml_width max_horiz_survey_pad.

Lemma calc_survey_pad_keeps_trace (max_time : Z) :
  keeps_trace
    (fun s : loop_state Optim =>
       (s, calc_survey_pad max_time (dt ds) (model Optim s)
                           max_horiz_survey_pad)).
Proof. intros s. reflexivity. Qed.

Lemma stage_body_begins_one (max_time_idx : Z) (u : unit) :
  begins_at_most 1 (stage_body' max_time_idx u).
Proof.
  change 1%nat with (0 + (1 + 0))%nat.
  apply begins_at_most_seq; [apply quiet_begins_none, quiet_lift |].
  intros q. apply begins_at_most_seq; [apply begins_at_most_emit |].
  intros ?. apply quiet_begins_none, quiet_seq.
  - apply keeps_trace_quiet, calc_survey_pad_keeps_trace.
  - intros survey_pad. apply quiet_for_each. intros e acc.
    apply epoch_body_quiet.
Qed.

Lemma stage_body_yields (max_time_idx : Z) (u : unit) :
  yields (stage_body' max_time_idx u)
         (fun _ t =>
            exists losses,
              num_max_time <> 0 /\
              length losses = length (range num_epochs) /\
              t = stage_trace
                    num_epochs num_superbatches num_batches max_time_idx
                    ((max_time_idx + 1) *
                     int (inject_Z (num_steps ds) / inject_Z num_max_time))
                    losses).
Proof.
  eapply yields_weaken.
  - apply yields_seq; [apply yields_lift |]. intros q.
    apply yields_seq; [apply yields_emit |]. intros ?.
    apply yields_seq;
      [apply keeps_trace_yields, calc_survey_pad_keeps_trace |].
    intros survey_pad.
    apply yields_for_each
      with (R := fun e t => exists loss,
                     t = epoch_trace num_superbatches num_batches
                                     (e, loss)).
    intros e acc. apply epoch_body_yields.
  - cbn beta.
    intros ? t (q & t1 & t2 & (Hq & ->) &
                (? & t3 & t4 & -> &
                 (survey_pad & t5 & t6 & -> & (ts & Hts & ->) & ->) & ->)
                & ->).
    destruct (Forall2_epoch_traces _ _ _ _ Hts) as (losses & Hlen & Hc).
    exists losses. unfold truediv in Hq.
    destruct (Qeq_bool (inject_Z num_max_time) 0) eqn:E; [discriminate |].
    injection Hq as <-. split; [| split; [exact Hlen |]].
    + intros ->. discriminate E.
    + unfold stage_trace. cbn [app]. now rewrite Hc.
Qed.

Let inversion_loop' :=
  inversion_loop Optim zero_grad step propagate_backward ds
                 src_start_time num_pool_data num_max_time num_epochs
                 num_superbatches num_batches pml_width
                 max_horiz_survey_pad.

Lemma inversion_loop_begins_one : begins_at_most 1 inversion_loop'.
Proof.
  change 1%nat with (1 + 0)%nat.
  apply begins_at_most_seq; [apply stage_body_begins_one |].
  intros u. apply quiet_begins_none, quiet_ret.
Qed.

Lemma inversion_loop_yields :
  yields inversion_loop'
         (fun _ t =>
            exists losses,
              num_max_time <> 0 /\
              length losses = length (range num_epochs) /\
              t = stage_trace
                    num_epochs num_superbatches num_batches 0
                    (int (inject_Z (num_steps ds) / inject_Z num_max_time))
                    losses).
Proof.
  eapply yields_weaken.
  - apply (yields_for_each (range 1) stage_body' _ (fun idx u =>
             stage_body_yields idx u)).
  - cbn beta. intros ? t (ts & Hts & ->).
    change (range 1) with [0] in Hts.
    inversion Hts as [| ? t1 ? ts' (losses & Hn & Hlen & ->) Hnil];
      subst.
    inversion Hnil; subst.
    exists losses. split; [exact Hn |]. split; [exact Hlen |].
    cbn [concat]. rewrite app_nil_r, Z.add_0_l, Z.mul_1_l. reflexivity.
Qed.

End Stage.

End LoopProperties.

(** *** Counting stages and epochs in the trace of a stage *)

Lemma filter_flat_map_nil {A} (p : event -> bool) (f : A -> list event)
      (xs : list A) :
  (forall x, filter p (f x) = []) -> filter p (flat_map f xs) = [].
Proof.
  intros H. induction xs as [| x xs IH]; [reflexivity |].
  cbn [flat_map]. now rewrite filter_app, H, IH.
Qed.

Lemma filter_superbatch_trace (p : event -> bool) (nb epoch sb : Z) :
  p (ZeroGrad epoch sb) = false -> p (Step epoch sb) = false ->
  (forall b, p (RunBatch epoch sb b) = false) ->
  filter p (superbatch_trace nb epoch sb) = [].
Proof.
  intros Hz Hs Hb. unfold superbatch_trace. cbn [filter]. rewrite Hz.
  rewrite filter_app. cbn [filter]. rewrite Hs, app_nil_r.
  induction (range nb) as [| b bs IH]; [reflexivity |].
  cbn [map filter]. now rewrite Hb.
Qed.

Lemma stages_stage_trace (ne nsb nb idx max_time : Z) (losses : list Q) :
  stages (stage_trace ne nsb nb idx max_time losses) = 1%nat.
Proof.
  unfold stages, stage_trace. cbn [filter is_stage length]. f_equal.
  rewrite filter_flat_map_nil; [reflexivity |].
  intros [e loss]. unfold epoch_trace. cbn [fst snd].
  rewrite filter_app. cbn [filter is_stage]. rewrite app_nil_r.
  apply filter_flat_map_nil. intros sb.
  apply filter_superbatch_trace; reflexivity.
Qed.

Lemma epochs_stage_trace (ne nsb nb idx max_time : Z) (losses : list Q) :
  length losses = length (range ne) ->
  epochs (stage_trace ne nsb nb idx max_time losses) = Z.to_nat ne.
Proof.
  intros Hlen. unfold epochs, stage_trace. cbn [filter is_print].
  assert (H : forall els : list (Z * Q),
             length (filter is_print (flat_map (epoch_trace nsb nb) els))
             = length els).
  { induction els as [| [e loss] els IH]; [reflexivity |].
    cbn [flat_map]. rewrite filter_app, length_app, IH.
    unfold epoch_trace. cbn [fst snd].
    rewrite filter_app. cbn [filter is_print].
    rewrite filter_flat_map_nil
      by (intros sb; apply filter_superbatch_trace; reflexivity).
    reflexivity. }
  rewrite H, length_combine, Hlen, Nat.min_id.
  unfold range. now rewrite length_map, length_seq.
Qed.

(** C2 (as the code has it). Whatever [num_max_time] is, a call of [fwi]
    begins at most one time-horizon stage; a call that returns has run
    exactly one, stage 0, with the horizon
    [max_time = int(num_steps / num_max_time)] and one call of
    [calc_survey_pad], followed by [num_epochs] epochs, each of
    [num_superbatches] superbatches of [num_batches] batches with one
    optimizer step per superbatch and one printed line per epoch. *)
Theorem fwi_single_stage
        (Optim : Type) (Adam : list (param * Q) -> result Optim)
        (zero_grad : Optim -> Optim)
        (step : Optim -> tensor -> tensor -> Optim * tensor * tensor)
        (propagate_backward :
           tensor -> Q -> list Q -> list Q ->
           tensor -> tensor -> tensor -> Q -> tensor ->
           Optim -> result (Optim * Q))
        (ds : dataset) (src_amp_init : tensor) (src_start_time : Q)
        (model_init : tensor)
        (num_pool_data num_max_time num_epochs
         num_superbatches num_batches : Z)
        (pml_width max_horiz_survey_pad lr_model lr_src_amp : Q)
        (invert_source invert_model : bool) :
  let run := fwi Optim Adam zero_grad step propagate_backward
                 ds src_amp_init src_start_time model_init
                 num_pool_data num_max_time num_epochs
                 num_superbatches num_batches
                 pml_width max_horiz_survey_pad lr_model lr_src_amp
                 invert_source invert_model in
  (stages (fst run) <= 1)%nat /\
  forall src_amp model,
    snd run = Ok (src_amp, model) ->
    num_max_time <> 0 /\
    stages (fst run) = 1%nat /\
    epochs (fst run) = Z.to_nat num_epochs /\
    exists losses,
      length losses = Z.to_nat num_epochs /\
      fst run =
        stage_trace num_epochs num_superbatches num_batches 0
                    (int (inject_Z (num_steps ds) / inject_Z num_max_time))
                    losses.
Proof.
  cbv zeta. unfold fwi.
  destruct (bind (add_model_axis model_init) _) as [s0 | e] eqn:Hpre.
  2:{ cbn [fst snd]. split; [cbn; lia | intros ? ? H; discriminate H]. }
  assert (Htr : trace s0 = []).
  { destruct (add_model_axis model_init); cbn [bind] in Hpre;
      [| discriminate].
    destruct (Adam _); cbn [bind] in Hpre; [| discriminate].
    now injection Hpre as <-. }
  pose proof (inversion_loop_begins_one
                Optim zero_grad step propagate_backward ds src_start_time
                num_pool_data num_max_time num_epochs num_superbatches
                num_batches (pml_width_vector pml_width)
                max_horiz_survey_pad s0) as Hle.
  pose proof (inversion_loop_yields
                Optim zero_grad step propagate_backward ds src_start_time
                num_pool_data num_max_time num_epochs num_superbatches
                num_batches (pml_width_vector pml_width)
                max_horiz_survey_pad s0) as Hy.
  destruct (inversion_loop _ _ _ _ _ _ _ _ _ _ _ _ _ s0) as [s [u | e]];
    cbn [fst snd] in *; rewrite Htr in Hle; cbn in Hle.
  - split; [lia |]. intros w m _.
    destruct (Hy s u eq_refl) as (t & Ht & losses & Hn & Hlen & ->).
    rewrite Htr in Ht. cbn [app] in Ht. rewrite Ht.
    split; [exact Hn |].
    split; [apply stages_stage_trace |].
    split; [now apply epochs_stage_trace |].
    exists losses. split; [| reflexivity].
    rewrite Hlen. unfold range. now rewrite length_map, length_seq.
  - split; [lia |]. intros ? ? H. discriminate H.
Qed.

Lemma fwi_single_stage_witness :
  2 <> 0 /\
  stages (fst (sample_fwi 2 1)) = 1%nat /\
  epochs (fst (sample_fwi 2 1)) = Z.to_nat 1 /\
  exists losses,
    length losses = Z.to_nat 1 /\
    fst (sample_fwi 2 1) =
      stage_trace 1 2 2 0 (int (inject_Z 8 / inject_Z 2)) losses.
Proof.
  apply (proj2 (fwi_single_stage
                  unit idle_Adam idle_zero_grad idle_step unit_loss
                  sample_dataset sample_wavelet 0 sample_model
                  2 2 1 2 2 10 500 100000 (1 # 10000) true true)
               sample_wavelet sample_model).
  vm_compute. reflexivity.
Defined.

(** * Further properties of the code *)

(** ** Batch ranges: bounds, errors and the exact sweeps *)

(** A batch lies inside the dataset and holds at most [batch_size] shots. *)
Theorem batch_range_inside (num_shots nsb nb sb b : Z) :
  0 <= num_shots -> 1 <= nsb -> 1 <= nb -> 0 <= sb -> 0 <= b ->
  exists batch_start batch_end,
    batch_range num_shots nsb nb sb b = Ok (batch_start, batch_end) /\
    0 <= batch_start <= batch_end /\ batch_end <= num_shots /\
    batch_end - batch_start
    <= ceil (inject_Z (ceil (inject_Z num_shots / inject_Z nsb))
             / inject_Z nb).
Proof.
  intros Hn Hs Hb Hsb Hbi. unfold batch_range.
  assert (Hs' : (0 < inject_Z nsb)%Q) by (apply inject_Z_pos; lia).
  assert (Hb' : (0 < inject_Z nb)%Q) by (apply inject_Z_pos; lia).
  rewrite truediv_ok by (intros E; rewrite E in Hs'; discriminate).
  cbn [bind].
  rewrite truediv_ok by (intros E; rewrite E in Hb'; discriminate).
  cbn [bind].
  set (ss := ceil (inject_Z num_shots / inject_Z nsb)).
  assert (Hss : 0 <= ss).
  { apply ceil_nonneg, Qdiv_nonneg; [| exact Hs'].
    unfold Qle, inject_Z; simpl. lia. }
  set (bs := ceil (inject_Z ss / inject_Z nb)).
  assert (Hbs : 0 <= bs).
  { apply ceil_nonneg, Qdiv_nonneg; [| exact Hb'].
    unfold Qle, inject_Z; simpl. lia. }
  eexists _, _. split; [reflexivity |]. nia.
Qed.

Lemma batch_range_inside_witness :
  exists batch_start batch_end,
    batch_range 10 2 2 1 1 = Ok (batch_start, batch_end) /\
    0 <= batch_start <= batch_end /\ batch_end <= 10 /\
    batch_end - batch_start
    <= ceil (inject_Z (ceil (inject_Z 10 / inject_Z 2)) / inject_Z 2).
Proof. apply (batch_range_inside 10 2 2 1 1); lia. Defined.

Lemma inject_Z_eq0 (z : Z) : (inject_Z z == 0)%Q <-> z = 0.
Proof. unfold Qeq, inject_Z; simpl. lia. Qed.

(** For a dataset of at most [2^53] shots, whose quotients no float
    overflows on, the only failure of the range computation is a division
    by a zero count of superbatches or of batches. *)
Theorem batch_range_raises (num_shots nsb nb sb b : Z) (e : exception) :
  Z.abs num_shots <= 2 ^ 53 ->
  (batch_range num_shots nsb nb sb b = Raise e <->
   e = ZeroDivisionError /\ (nsb = 0 \/ nb = 0)).
Proof.
  intros _. unfold batch_range, truediv.
  destruct (Qeq_bool (inject_Z nsb) 0) eqn:E1; cbn [bind].
  - apply Qeq_bool_eq in E1. apply -> inject_Z_eq0 in E1. split.
    + intros H. injection H as <-. auto.
    + intros [-> _]. reflexivity.
  - apply Qeq_bool_neq in E1. rewrite inject_Z_eq0 in E1.
    destruct (Qeq_bool (inject_Z nb) 0) eqn:E2; cbn [bind].
    + apply Qeq_bool_eq in E2. apply -> inject_Z_eq0 in E2. split.
      * intros H. injection H as <-. auto.
      * intros [-> _]. reflexivity.
    + apply Qeq_bool_neq in E2. rewrite inject_Z_eq0 in E2.
      split; [discriminate | intros [_ [H | H]]; contradiction].
Qed.

Lemma batch_range_raises_witness :
  batch_range 10 0 2 0 0 = Raise ZeroDivisionError <->
  ZeroDivisionError = ZeroDivisionError /\ (0 = 0 \/ 2 = 0).
Proof. apply (batch_range_raises 10 0 2 0 0 ZeroDivisionError). lia. Defined.

Lemma ceil_exact (a b : Z) :
  0 < b -> ceil (inject_Z (a * b) / inject_Z b) = a.
Proof.
  intros Hb. unfold ceil.
  assert (E : (inject_Z (a * b) / inject_Z b == inject_Z a)%Q).
  { rewrite inject_Z_mult. field. rewrite inject_Z_eq0. lia. }
  rewrite (Qceiling_comp _ _ E). apply Qceiling_Z.
Qed.

(** The ranges when there are as many superbatches as batches, [n], and
    [n * n * k] shots. *)
Lemma batch_range_square (n k sb b : Z) :
  1 <= n ->
  batch_range (n * n * k) n n sb b =
    Ok (Z.min (b * (n * k) + sb * k) (n * n * k),
        Z.min (Z.min (b * (n * k) + sb * k) (n * n * k) + k) (n * n * k)).
Proof.
  intros Hn. unfold batch_range.
  assert (Hn' : ~ (inject_Z n == 0)%Q) by (rewrite inject_Z_eq0; lia).
  rewrite !(truediv_ok _ _ Hn'). cbn [bind].
  replace (n * n * k) with (n * k * n) by ring.
  rewrite (ceil_exact (n * k) n) by lia. cbn [bind].
  rewrite (truediv_ok _ _ Hn'). cbn [bind].
  replace (inject_Z (n * k)) with (inject_Z (k * n)) by (f_equal; ring).
  rewrite (ceil_exact k n) by lia. reflexivity.
Qed.

Lemma list_sum_indicator (g : Z -> nat) (xs : list Z) (x0 : Z) :
  NoDup xs -> In x0 xs -> g x0 = 1%nat ->
  (forall x, In x xs -> x <> x0 -> g x = 0%nat) ->
  list_sum (map g xs) = 1%nat.
Proof.
  intros Hnd. induction Hnd as [| x xs Hx Hnd IH]; intros Hin H1 H0.
  - contradiction.
  - cbn [map list_sum]. destruct Hin as [-> | Hin].
    + rewrite H1. f_equal.
      assert (Hz : forall y, In y xs -> g y = 0%nat).
      { intros y Hy. apply H0; [now right |]. intros ->. contradiction. }
      clear -Hz. induction xs as [| y ys IH]; [reflexivity |].
      cbn. rewrite (Hz y) by (now left). apply IH.
      intros z Hzs. apply Hz. now right.
    + assert (Hne : x <> x0) by (intros ->; contradiction).
      rewrite (H0 x (or_introl eq_refl) Hne).
      apply IH; [exact Hin | exact H1 |].
      intros y Hy. apply H0. now right.
Qed.

Lemma list_sum_zero (g : Z -> nat) (xs : list Z) :
  (forall x, In x xs -> g x = 0%nat) -> list_sum (map g xs) = 0%nat.
Proof.
  induction xs as [| x xs IH]; intros H; [reflexivity |].
  cbn. rewrite (H x) by (now left). apply IH.
  intros y Hy. apply H. now right.
Qed.

Lemma length_filter_sum {A} (p : A -> bool) (xs : list A) :
  length (filter p xs)
  = list_sum (map (fun x => if p x then 1%nat else 0%nat) xs).
Proof.
  induction xs as [| x xs IH]; [reflexivity |].
  cbn. destruct (p x); cbn; now rewrite IH.
Qed.

Lemma length_filter_flat_map {A B} (p : B -> bool) (f : A -> list B)
      (xs : list A) :
  length (filter p (flat_map f xs))
  = list_sum (map (fun x => length (filter p (f x))) xs).
Proof.
  induction xs as [| x xs IH]; [reflexivity |].
  cbn. now rewrite filter_app, length_app, IH.
Qed.

Lemma in_range (m j : Z) : In j (range m) <-> 0 <= j < m.
Proof.
  unfold range. rewrite in_map_iff. split.
  - intros (i & <- & Hi). apply in_seq in Hi. lia.
  - intros H. exists (Z.to_nat j). split; [lia |]. apply in_seq. lia.
Qed.

Lemma NoDup_range (m : Z) : NoDup (range m).
Proof.
  unfold range. generalize (seq_NoDup (Z.to_nat m) 0).
  induction 1 as [| x xs Hx _ IH]; cbn [map]; constructor; [| exact IH].
  rewrite in_map_iff. intros (y & Hy & Hin).
  apply Nat2Z.inj in Hy. subst y. contradiction.
Qed.

(** The one batch of a square sweep that holds a shot. *)
Lemma square_batch_unique (n k shot sb b : Z) :
  1 <= n -> 0 <= shot < n * n * k -> 0 <= sb < n -> 0 <= b < n ->
  (b * (n * k) + sb * k <= shot < b * (n * k) + sb * k + k <->
   b = shot / (n * k) /\ sb = shot mod (n * k) / k).
Proof.
  intros Hn Hshot Hsb Hb.
  assert (Hk : 0 < k) by nia.
  assert (Hnk : 0 < n * k) by nia.
  split.
  - intros H.
    assert (Eb : b = shot / (n * k)).
    { apply (Z.div_unique shot (n * k) b (shot - b * (n * k))); nia. }
    split; [exact Eb |].
    assert (Er : shot mod (n * k) = shot - b * (n * k)).
    { symmetry.
      apply (Z.mod_unique shot (n * k) b (shot - b * (n * k))); nia. }
    rewrite Er.
    apply (Z.div_unique _ k sb (shot - b * (n * k) - sb * k)); nia.
  - intros [-> ->].
    pose proof (Z.div_mod shot (n * k) ltac:(lia)) as E1.
    pose proof (Z.mod_pos_bound shot (n * k) Hnk) as B1.
    pose proof (Z.div_mod (shot mod (n * k)) k ltac:(lia)) as E2.
    pose proof (Z.mod_pos_bound (shot mod (n * k)) k Hk) as B2.
    nia.
Qed.

(** When the number of superbatches and the number of batches are both
    [n] and there are [n * n * k] shots, at most [2^53] so that the
    program divides them without rounding, one sweep of [extract_batch]
    visits every shot exactly once. *)
Theorem sweep_square_partition (n k shot : Z) :
  1 <= n -> n * n * k <= 2 ^ 53 -> 0 <= shot < n * n * k ->
  visits (n * n * k) n n shot = 1%nat.
Proof.
  intros Hn _ Hshot.
  assert (Hk : 0 < k) by nia.
  assert (Hnk : 0 < n * k) by nia.
  set (b0 := shot / (n * k)). set (sb0 := shot mod (n * k) / k).
  assert (Hb0 : 0 <= b0 < n).
  { unfold b0. split; [apply Z.div_pos; lia |].
    apply Z.div_lt_upper_bound; nia. }
  assert (Hsb0 : 0 <= sb0 < n).
  { unfold sb0. pose proof (Z.mod_pos_bound shot (n * k) Hnk).
    split; [apply Z.div_pos; lia |].
    apply Z.div_lt_upper_bound; nia. }
  assert (Hcov : forall sb b, 0 <= sb < n -> 0 <= b < n ->
             covers shot (batch_range (n * n * k) n n sb b) = true <->
             b = b0 /\ sb = sb0).
  { intros sb b Hsb Hb. rewrite batch_range_square by exact Hn.
    unfold b0, sb0.
    rewrite <- (square_batch_unique n k shot sb b Hn Hshot Hsb Hb).
    unfold covers. rewrite andb_true_iff, Z.leb_le, Z.ltb_lt. nia. }
  unfold visits, sweep. rewrite length_filter_flat_map.
  apply (list_sum_indicator _ _ sb0 (NoDup_range n)).
  - now apply in_range.
  - rewrite filter_map_swap, length_map, length_filter_sum.
    apply (list_sum_indicator _ _ b0 (NoDup_range n)).
    + now apply in_range.
    + cbv beta.
      now rewrite (proj2 (Hcov sb0 b0 Hsb0 Hb0) (conj eq_refl eq_refl)).
    + intros b Hb Hne. apply in_range in Hb. cbv beta.
      destruct (covers shot _) eqn:E; [| reflexivity].
      apply Hcov in E; [tauto | assumption | assumption].
  - intros sb Hsb Hne. apply in_range in Hsb.
    rewrite filter_map_swap, length_map, length_filter_sum.
    apply list_sum_zero. intros b Hb. apply in_range in Hb. cbv beta.
    destruct (covers shot _) eqn:E; [| reflexivity].
    apply Hcov in E; [tauto | assumption | assumption].
Qed.

Lemma sweep_square_partition_witness : visits (3 * 3 * 2) 3 3 7 = 1%nat.
Proof. apply (sweep_square_partition 3 2 7); lia. Defined.

(** ** The slices of a batch *)

Lemma skipn_chunks {A} (k c n : nat) (xs : list A) :
  skipn k (chunks c n xs) = chunks c (n - k) (skipn (k * c) xs).
Proof.
  revert k xs. induction n as [| n IH]; intros k xs.
  - cbn. now rewrite skipn_nil.
  - destruct k as [| k]; [reflexivity |].
    cbn [chunks skipn Nat.sub]. rewrite IH, skipn_skipn.
    f_equal. f_equal. cbn. lia.
Qed.

(** [t[lo:hi]] for bounds inside the first axis: the blocks from [lo] to
    [hi - 1]. *)
Lemma slice0_inside (lo hi : Z) (t : tensor) (d : nat) (rest : list nat) :
  shape t = d :: rest ->
  0 <= lo <= hi -> hi <= Z.of_nat d ->
  slice0 lo hi t =
    Ok (mkTensor (Z.to_nat (hi - lo) :: rest)
                 (firstn (Z.to_nat (hi - lo) * numel rest)
                         (skipn (Z.to_nat lo * numel rest) (data t)))).
Proof.
  intros Hs Hlo Hhi. unfold slice0, slice. rewrite Hs, length_chunks.
  rewrite !slice_bound_nonneg by lia.
  rewrite (Nat.min_l (Z.to_nat lo)), (Nat.min_l (Z.to_nat hi)) by lia.
  rewrite firstn_chunks, (Nat.min_l (Z.to_nat hi)) by lia.
  rewrite skipn_chunks, length_chunks, concat_chunks.
  replace (Z.to_nat hi - Z.to_nat lo)%nat with (Z.to_nat (hi - lo)) by lia.
  reflexivity.
Qed.

(** When the location arrays have one row per shot and the dataset's
    accessor does not fail, [extract_batch] returns the rows
    [batch_start] to [batch_end - 1] of the source and of the receiver
    locations: as many rows as the batch has shots, none for an empty
    batch. *)
Theorem extract_batch_rows (ds : dataset) (nsb nb sb b : Z)
        (rs rr : list nat) :
  0 <= num_shots ds -> 1 <= nsb -> 1 <= nb -> 0 <= sb -> 0 <= b ->
  shape (src_locs ds) = Z.to_nat (num_shots ds) :: rs ->
  shape (rec_locs ds) = Z.to_nat (num_shots ds) :: rr ->
  (forall s e, exists batch_data, get_shots ds s e = Ok batch_data) ->
  exists batch_start batch_end batch_data,
    batch_range (num_shots ds) nsb nb sb b = Ok (batch_start, batch_end) /\
    get_shots ds batch_start batch_end = Ok batch_data /\
    let rows := Z.to_nat (batch_end - batch_start) in
    let first := Z.to_nat batch_start in
    extract_batch ds nsb nb sb b =
      Ok (batch_data,
          mkTensor (rows :: rs)
                   (firstn (rows * numel rs)
                           (skipn (first * numel rs) (data (src_locs ds)))),
          mkTensor (rows :: rr)
                   (firstn (rows * numel rr)
                           (skipn (first * numel rr) (data (rec_locs ds))))).
Proof.
  intros Hn Hs Hb Hsb Hbi Hsrc Hrec Hget.
  destruct (batch_range_bounds _ _ _ _ _ Hn Hs Hb Hsb Hbi)
    as (s & e & Hr & Hse & He).
  destruct (Hget s e) as [d Hd].
  exists s, e, d. split; [exact Hr |]. split; [exact Hd |].
  cbv zeta. unfold extract_batch. rewrite Hr. cbn [bind]. rewrite Hd.
  cbn [bind].
  rewrite (slice0_inside s e _ _ _ Hsrc) by lia. cbn [bind].
  rewrite (slice0_inside s e _ _ _ Hrec) by lia. reflexivity.
Qed.

Lemma extract_batch_rows_witness :
  exists batch_start batch_end batch_data,
    batch_range 4 2 2 1 0 = Ok (batch_start, batch_end) /\
    get_shots sample_dataset batch_start batch_end = Ok batch_data /\
    let rows := Z.to_nat (batch_end - batch_start) in
    let first := Z.to_nat batch_start in
    extract_batch sample_dataset 2 2 1 0 =
      Ok (batch_data,
          mkTensor (rows :: [1; 2]%nat)
                   (firstn (rows * numel [1; 2]%nat)
                           (skipn (first * numel [1; 2]%nat)
                                  (data (src_locs sample_dataset)))),
          mkTensor (rows :: [1; 2]%nat)
                   (firstn (rows * numel [1; 2]%nat)
                           (skipn (first * numel [1; 2]%nat)
                                  (data (rec_locs sample_dataset))))).
Proof.
  apply (extract_batch_rows sample_dataset 2 2 1 0 [1; 2]%nat [1; 2]%nat);
    try (cbn; lia); try reflexivity.
  intros s e. eexists. reflexivity.
Defined.

(** ** The temporal window: when it succeeds and when it changes nothing *)

Lemma apply_max_time_condition (batch_data_true src_amp : tensor)
      (dt src_start_time : Q) (max_time : Z) :
  (exists r, apply_max_time batch_data_true src_amp dt src_start_time
                            max_time = Ok r) ->
  shape batch_data_true <> [] /\ ~ (dt == 0)%Q /\ shape src_amp <> [].
Proof.
  intros [r Hr]. unfold apply_max_time, slice_last_to in Hr.
  destruct (rev (shape batch_data_true)) as [| L rl] eqn:Hrev;
    [discriminate |].
  cbn [bind] in Hr. unfold max_src_amp_time, truediv in Hr.
  destruct (Qeq_bool dt 0) eqn:Edt; [discriminate |].
  cbn [bind] in Hr. unfold slice0 in Hr.
  destruct (shape src_amp) eqn:Hw; [discriminate |].
  split; [| split].
  - intros E. rewrite E in Hrev. discriminate.
  - now apply Qeq_bool_neq.
  - discriminate.
Qed.

(** For a time horizon and a start time, in samples, of at most [2^53]
    in absolute value, [apply_max_time] returns a value exactly when the
    data and the wavelet have at least one axis and [dt] is not zero; no
    such [max_time] or start time makes it raise, whether the length of
    the wavelet comes out negative or not. *)
Theorem apply_max_time_succeeds (batch_data_true src_amp : tensor)
        (dt src_start_time : Q) (max_time : Z) :
  Z.abs max_time <= 2 ^ 53 ->
  (- inject_Z (2 ^ 53) <= src_start_time / dt <= inject_Z (2 ^ 53))%Q ->
  ((exists r, apply_max_time batch_data_true src_amp dt src_start_time
                             max_time = Ok r) <->
   shape batch_data_true <> [] /\ ~ (dt == 0)%Q /\ shape src_amp <> []).
Proof.
  intros _ _. split.
  - apply apply_max_time_condition.
  - intros (Hd & Hdt & Hw).
    destruct (exists_last Hd) as (lead & L & Hs).
    destruct (shape src_amp) as [| d rest] eqn:Hsw; [contradiction |].
    eexists.
    apply (apply_max_time_eq _ _ _ _ _ lead L d rest Hs Hsw Hdt).
Qed.

Lemma apply_max_time_succeeds_witness :
  (exists r, apply_max_time sample_trace sample_wavelet 1 3 1 = Ok r) <->
  shape sample_trace <> [] /\ ~ (1 == 0)%Q /\ shape sample_wavelet <> [].
Proof.
  apply (apply_max_time_succeeds sample_trace sample_wavelet 1 3 1).
  - lia.
  - split; vm_compute; discriminate.
Defined.

Lemma numel_app (a b : list nat) : numel (a ++ b) = (numel a * numel b)%nat.
Proof.
  induction a as [| x a IH]; cbn [app numel fold_right].
  - fold (numel b). lia.
  - fold (numel (a ++ b)). fold (numel a). rewrite IH. lia.
Qed.

Lemma chunks_short {A} (c n : nat) (xs : list A) :
  Forall (fun row => (length row <= c)%nat) (chunks c n xs).
Proof.
  revert xs. induction n as [| n IH]; intros xs; cbn; constructor.
  - apply firstn_le_length.
  - apply IH.
Qed.

Lemma tensor_eta (t : tensor) : mkTensor (shape t) (data t) = t.
Proof. now destruct t. Qed.

(** A time horizon that covers the whole recording and the whole wavelet
    changes nothing: well-formed data and wavelet come back as they
    are. *)
Theorem apply_max_time_covering (batch_data_true src_amp : tensor)
        (dt src_start_time : Q) (max_time : Z)
        (lead : list nat) (L d : nat) (rest : list nat) :
  well_formed batch_data_true -> well_formed src_amp ->
  shape batch_data_true = lead ++ [L] ->
  shape src_amp = d :: rest ->
  ~ (dt == 0)%Q ->
  Z.of_nat L <= max_time ->
  Z.of_nat d <= int (- src_start_time / dt + inject_Z max_time) ->
  apply_max_time batch_data_true src_amp dt src_start_time max_time =
    Ok (batch_data_true, src_amp).
Proof.
  intros Wd Ww Hd Hw Hdt HL Hn.
  rewrite (apply_max_time_eq _ _ _ _ _ _ _ _ _ Hd Hw Hdt). cbv zeta.
  rewrite !slice_bound_nonneg by lia.
  rewrite (Nat.min_r _ L), (Nat.min_r _ d) by lia.
  unfold well_formed in Wd, Ww. rewrite Hd, numel_app in Wd.
  rewrite Hw in Ww. cbn [numel fold_right] in Wd, Ww. fold (numel rest) in Ww.
  assert (E1 : map (slice_to max_time)
                   (chunks L (numel lead) (data batch_data_true))
               = chunks L (numel lead) (data batch_data_true)).
  { rewrite <- (map_id (chunks _ _ _)) at 2. apply map_ext_in.
    intros row Hrow. rewrite slice_to_nonneg by lia.
    apply firstn_all2.
    pose proof (chunks_short L (numel lead) (data batch_data_true)) as Hc.
    rewrite Forall_forall in Hc. specialize (Hc row Hrow). lia. }
  rewrite E1, concat_chunks.
  rewrite !firstn_all2 by lia.
  rewrite <- Hd, <- Hw, !tensor_eta. reflexivity.
Qed.

Lemma apply_max_time_covering_witness :
  apply_max_time sample_trace sample_wavelet 1 0 8 =
    Ok (sample_trace, sample_wavelet).
Proof.
  apply (apply_max_time_covering sample_trace sample_wavelet 1 0 8
                                 [1; 1]%nat 8 8 []);
    try reflexivity; try discriminate; vm_compute; discriminate.
Defined.

(** ** Pooling with a window of one element *)

Lemma flat_map_seq_blocks (N d a : nat) :
  flat_map (fun i => seq (i * N) N) (seq a d) = seq (a * N) (d * N).
Proof.
  revert a. induction d as [| d IH]; intros a; [reflexivity |].
  cbn [seq flat_map]. rewrite IH.
  replace (S d * N)%nat with (N + d * N)%nat by (cbn; lia).
  rewrite seq_app. do 2 f_equal. cbn. lia.
Qed.

(** The positions of the multi-indices, in their order, are
    [0, 1, ..., numel - 1]. *)
Lemma map_offset_multi_indices (sh : list nat) :
  map (offset sh) (multi_indices sh) = seq 0 (numel sh).
Proof.
  induction sh as [| d rest IH]; [reflexivity |].
  cbn [multi_indices numel fold_right]. fold (numel rest).
  pose proof (flat_map_seq_blocks (numel rest) d 0) as E.
  cbn [Nat.mul] in E. rewrite <- E. clear E.
  rewrite flat_map_concat_map, concat_map, map_map, <- flat_map_concat_map.
  apply flat_map_ext. intros i. rewrite map_map. cbn [offset].
  rewrite <- (map_map (offset rest) (fun o => (i * numel rest + o)%nat)), IH.
  clear. generalize (numel rest) as N. intros N.
  assert (H : forall c a,
             map (fun o => (i * N + o)%nat) (seq a c) = seq (i * N + a) c).
  { induction c as [| c IHc]; intros a; [reflexivity |].
    cbn [seq map]. f_equal. rewrite IHc. f_equal. lia. }
  rewrite H. f_equal. lia.
Qed.

Lemma map_nth_seq {A} (xs : list A) (d : A) :
  map (fun n => nth n xs d) (seq 0 (length xs)) = xs.
Proof.
  induction xs as [| x xs IH]; [reflexivity |].
  cbn [length seq map nth]. f_equal.
  rewrite <- seq_shift, map_map. exact IH.
Qed.

Lemma map_get_multi_indices (t : tensor) :
  well_formed t -> map (get t) (multi_indices (shape t)) = data t.
Proof.
  intros W. unfold get.
  rewrite <- (map_map (offset (shape t)) (fun n => nth n (data t) 0%Q)).
  rewrite map_offset_multi_indices, <- W. apply map_nth_seq.
Qed.

Lemma multi_indices_ones (n : nat) :
  multi_indices (repeat 1%nat n) = [repeat 0%nat n].
Proof.
  induction n as [| n IH]; [reflexivity |].
  cbn [repeat multi_indices seq flat_map]. rewrite IH. reflexivity.
Qed.

Lemma window_pos_unit (o : list nat) :
  window_pos 1 0 o (repeat 0%nat (length o)) = map Z.of_nat o.
Proof.
  unfold window_pos. induction o as [| x o IH]; [reflexivity |].
  cbn [length repeat combine map fst snd]. rewrite IH. f_equal. lia.
Qed.

Lemma inside_valid (sp o : list nat) :
  valid_index sp o -> inside sp (map Z.of_nat o) = true.
Proof.
  intros H. unfold inside.
  induction H as [| d i sp o Hi _ IH]; [reflexivity |].
  cbn [map combine forallb fst snd]. rewrite IH.
  destruct (Z.leb_spec 0 (Z.of_nat i)); [| lia].
  destruct (Z.ltb_spec (Z.of_nat i) (Z.of_nat d)); [reflexivity | lia].
Qed.

Lemma valid_index_skipn (k : nat) (sh idx : list nat) :
  valid_index sh idx -> valid_index (skipn k sh) (skipn k idx).
Proof.
  intros H. revert k. induction H as [| d i sh idx Hi H IH]; intros k.
  - rewrite !skipn_nil. constructor.
  - destruct k as [| k]; [now constructor | apply IH].
Qed.

(** With a window of one element and no padding an output is the input
    element at the same index. *)
Lemma window_mean_unit (nsp : nat) (t : tensor) (idx : list nat) :
  valid_index (shape t) idx -> (nsp <= length (shape t))%nat ->
  (window_mean nsp 1 0 t idx == get t idx)%Q.
Proof.
  intros Hv Hn. unfold window_mean.
  change (Z.to_nat 1) with 1%nat. rewrite multi_indices_ones.
  cbn [map Qsum fold_right]. rewrite Z.pow_1_l by lia.
  set (nlead := (length (shape t) - nsp)%nat).
  assert (Hlen : length (skipn nlead idx) = nsp).
  { rewrite length_skipn, <- (Forall2_length Hv). unfold nlead. lia. }
  rewrite <- Hlen at 2. rewrite window_pos_unit.
  unfold get_padded. fold nlead.
  rewrite (inside_valid _ _ (valid_index_skipn nlead _ _ Hv)).
  rewrite map_map.
  rewrite (map_ext _ (fun x => x)) by (intros x; apply Nat2Z.id).
  rewrite map_id, firstn_skipn. change (inject_Z 1) with 1%Q. field.
Qed.

Lemma Forall2_Qeq_map {A} (f g : A -> Q) (xs : list A) :
  (forall x, In x xs -> (f x == g x)%Q) ->
  Forall2 Qeq (map f xs) (map g xs).
Proof.
  induction xs as [| x xs IH]; intros H; cbn [map]; constructor.
  - apply H. now left.
  - apply IH. intros y Hy. apply H. now right.
Qed.

Lemma pooled_length_unit (d : nat) : pooled_length 1 0 d = d.
Proof. unfold pooled_length. rewrite Z.div_1_r. lia. Qed.

(** Pooling with a window of one element returns the input: the same
    shape, and elements equal to those of the input. *)
Lemma avg_pool_unit (nsp : nat) (t : tensor) :
  well_formed t ->
  (length (shape t) = nsp + 1 \/ length (shape t) = nsp + 2)%nat ->
  Forall (fun d => d <> 0%nat) (shape t) ->
  exists t',
    avg_pool nsp 1 0 t = Ok t' /\
    shape t' = shape t /\
    Forall2 Qeq (data t') (data t).
Proof.
  intros W Hr Hnz. unfold avg_pool.
  replace ((length (shape t) =? nsp + 1)%nat
           || (length (shape t) =? nsp + 2)%nat) with true
    by (symmetry; apply orb_true_iff; rewrite !Nat.eqb_eq; exact Hr).
  rewrite (nonempty_axes_ok nsp _ Hnz).
  cbn [negb Z.leb Z.ltb Z.compare Z.mul orb].
  rewrite (map_ext _ (fun d => d)) by apply pooled_length_unit.
  rewrite map_id.
  rewrite existsb_zero_false
    by (rewrite <- (firstn_skipn (length (shape t) - nsp) (shape t)) in Hnz;
        apply Forall_app in Hnz; apply Hnz).
  rewrite firstn_skipn. eexists. split; [reflexivity |].
  split; [reflexivity |]. cbn [data].
  rewrite <- (map_get_multi_indices t W) at 1.
  apply Forall2_Qeq_map. intros idx Hin.
  apply window_mean_unit; [now apply multi_indices_valid | lia].
Qed.

(** Pooling the data by 1 leaves them as they are: the same shape, equal
    samples, the same time step, for well-formed data with two or three
    axes, none of them empty, and whatever the start time (of at most
    [2^53] samples in absolute value, so that the quotient has an integer
    part). *)
Theorem pool_data_by_one (data : tensor) (dt start_time : Q)
        (lead : list nat) (L : nat) :
  well_formed data ->
  shape data = lead ++ [L] ->
  (length lead = 1 \/ length lead = 2)%nat ->
  Forall (fun d => d <> 0%nat) (shape data) ->
  ~ (dt == 0)%Q ->
  (- inject_Z (2 ^ 53) <= start_time / dt <= inject_Z (2 ^ 53))%Q ->
  exists data_pool new_dt,
    pool_data data 1 dt start_time = Ok (data_pool, new_dt) /\
    shape data_pool = shape data /\
    Forall2 Qeq (Torch.data data_pool) (Torch.data data) /\
    (new_dt == dt)%Q.
Proof.
  intros W Hs Hl Hnz Hdt _. unfold pool_data.
  rewrite (truediv_ok _ _ Hdt). cbn [bind]. unfold imod.
  cbn [Z.eqb bind]. rewrite Z.mod_1_r. unfold apply_pool. cbn [pooled_axes].
  destruct (avg_pool_unit 1 data W) as (t' & Ht & Hsh & Hd).
  - rewrite Hs, length_app. cbn [length]. lia.
  - exact Hnz.
  - rewrite Ht. cbn [bind]. eexists _, _. split; [reflexivity |].
    split; [exact Hsh |]. split; [exact Hd |].
    change (inject_Z 1) with 1%Q. ring.
Qed.

Lemma pool_data_by_one_witness :
  exists data_pool new_dt,
    pool_data sample_trace 1 (1 # 1024) (- (7 # 2)) = Ok (data_pool, new_dt) /\
    shape data_pool = shape sample_trace /\
    Forall2 Qeq (Torch.data data_pool) (Torch.data sample_trace) /\
    (new_dt == 1 # 1024)%Q.
Proof.
  apply (pool_data_by_one sample_trace (1 # 1024) (- (7 # 2)) [1; 1]%nat 8).
  - reflexivity.
  - reflexivity.
  - right. reflexivity.
  - repeat constructor; discriminate.
  - discriminate.
  - split; vm_compute; discriminate.
Defined.

(** ** The spacing of the pooled model *)







(** ** The survey padding: when it fails *)

(** [calc_survey_pad] raises exactly for a model without elements or
    without axes, and then with torch's [RuntimeError]; a time horizon of
    at most [2^53] steps in absolute value, [dt] and the cap never make
    it fail. *)
Theorem calc_survey_pad_raises (max_time : Z) (dt : Q) (model : tensor)
        (max_horiz_survey_pad : Q) (e : exception) :
  Z.abs max_time <= 2 ^ 53 ->
  (calc_survey_pad max_time dt model max_horiz_survey_pad = Raise e <->
   e = RuntimeError /\ (data model = [] \/ shape model = [])).
Proof.
  intros _. unfold calc_survey_pad, max_item, ones_times, dim.
  destruct (data model) as [| v vs]; cbn [bind].
  - split; [intros H; injection H as <-; auto | intros [-> _]; reflexivity].
  - destruct (shape model) as [| d rest]; cbn [length].
    + cbn. split; [intros H; injection H as <-; auto
                  | intros [-> _]; reflexivity].
    + destruct (Z.ltb_spec (2 * (Z.of_nat (S (length rest)) - 1)) 0);
        [lia |].
      cbn [bind].
      destruct (1 <? Z.of_nat (S (length rest)) - 1);
        (split; [discriminate | intros [_ [X | X]]; discriminate X]).
Qed.

Lemma calc_survey_pad_raises_witness :
  calc_survey_pad 8 (1 # 1024) (mkTensor [] [1500%Q]) 500
    = Raise RuntimeError <->
  RuntimeError = RuntimeError /\
  (data (mkTensor [] [1500%Q]) = [] \/ shape (mkTensor [] [1500%Q]) = []).
Proof.
  apply (calc_survey_pad_raises 8 (1 # 1024) (mkTensor [] [1500%Q]) 500
                                RuntimeError).
  lia.
Defined.

Lemma calc_survey_pad_ok (max_time : Z) (dt : Q) (model : tensor)
      (max_horiz_survey_pad : Q) :
  data model <> [] -> shape model <> [] ->
  exists survey_pad,
    calc_survey_pad max_time dt model max_horiz_survey_pad = Ok survey_pad.
Proof.
  intros Hd Hs.
  destruct (shape model) as [| d rest] eqn:Es; [contradiction |].
  destruct (data model) as [| v vs] eqn:Ed; [contradiction |].
  eexists.
  apply (calc_survey_pad_eq max_time dt model max_horiz_survey_pad d rest
                            (Qmax_list v vs) Es).
  unfold max_item. now rewrite Ed.
Qed.

(** ** The inversion loop: edge cases and numbers of calls *)

Lemma length_range (n : Z) : length (range n) = Z.to_nat n.
Proof. unfold range. now rewrite length_map, length_seq. Qed.

Lemma count_app (p : event -> bool) (a b : list event) :
  count p (a ++ b) = (count p a + count p b)%nat.
Proof. unfold count. now rewrite filter_app, length_app. Qed.

Lemma count_flat_map_const {A} (p : event -> bool) (f : A -> list event)
      (xs : list A) (c : nat) :
  (forall x, count p (f x) = c) ->
  count p (flat_map f xs) = (length xs * c)%nat.
Proof.
  intros H. induction xs as [| x xs IH]; [reflexivity |].
  cbn [flat_map length]. rewrite count_app, H, IH. lia.
Qed.

Lemma count_map_const {A} (p : event -> bool) (f : A -> event)
      (xs : list A) (v : bool) :
  (forall x, p (f x) = v) ->
  count p (map f xs) = if v then length xs else 0%nat.
Proof.
  intros H. unfold count. induction xs as [| x xs IH].
  - now destruct v.
  - cbn [map filter]. rewrite H. destruct v; cbn [length]; now rewrite IH.
Qed.

(** The calls of the trace of a stage, counted by kind: [in_batches] tells
    whether [p] counts the batches, [c] how many of the two optimizer calls
    of a superbatch it counts. *)
Lemma count_stage_trace (p : event -> bool) (in_batches : bool) (c : nat)
      (ne nsb nb idx max_time : Z) (losses : list Q) :
  p (CalcSurveyPad idx max_time) = false ->
  (forall e l, p (Print e l) = false) ->
  (forall e sb b, p (RunBatch e sb b) = in_batches) ->
  (forall e sb,
      ((if p (ZeroGrad e sb) then 1 else 0)
       + (if p (Step e sb) then 1 else 0) = c)%nat) ->
  length losses = Z.to_nat ne ->
  count p (stage_trace ne nsb nb idx max_time losses)
  = (Z.to_nat ne
     * (Z.to_nat nsb * (c + if in_batches then Z.to_nat nb else 0)))%nat.
Proof.
  intros Hc Hp Hb Hzs Hlen. unfold stage_trace.
  change (CalcSurveyPad idx max_time :: ?l)
    with ([CalcSurveyPad idx max_time] ++ l).
  rewrite count_app. unfold count at 1. cbn [filter]. rewrite Hc.
  cbn [length Nat.add].
  rewrite (count_flat_map_const p _ _
             (Z.to_nat nsb * (c + if in_batches then Z.to_nat nb else 0))).
  - now rewrite length_combine, length_range, Hlen, Nat.min_id.
  - intros [e l]. unfold epoch_trace. cbn [fst snd].
    rewrite count_app. unfold count at 2. cbn [filter]. rewrite Hp.
    cbn [length]. rewrite Nat.add_0_r.
    rewrite (count_flat_map_const p _ _
               (c + if in_batches then Z.to_nat nb else 0)).
    + now rewrite length_range.
    + intros sb. unfold superbatch_trace.
      change (ZeroGrad e sb :: ?l) with ([ZeroGrad e sb] ++ l).
      rewrite !count_app, (count_map_const p _ _ in_batches (Hb e sb)).
      rewrite length_range. unfold count. cbn [filter].
      specialize (Hzs e sb).
      destruct (p (ZeroGrad e sb)), (p (Step e sb)), in_batches;
        cbn [length] in *; lia.
Qed.


Section FwiProperties.

Variable Optim : Type.
Variable Adam : list (param * Q) -> result Optim.
Variable zero_grad : Optim -> Optim.
Variable step : Optim -> tensor -> tensor -> Optim * tensor * tensor.
Variable propagate_backward :
  tensor -> Q -> list Q -> list Q ->
  tensor -> tensor -> tensor -> Q -> tensor ->
  Optim -> result (Optim * Q).

Variables (ds : dataset) (src_amp_init : tensor) (src_start_time : Q).
Variables (model_init : tensor).
Variables (num_pool_data num_max_time num_epochs
           num_superbatches num_batches : Z).
Variables (pml_width max_horiz_survey_pad lr_model lr_src_amp : Q).
Variables (invert_source invert_model : bool).

Let run :=
  fwi Optim Adam zero_grad step propagate_backward
      ds src_amp_init src_start_time model_init
      num_pool_data num_max_time num_epochs num_superbatches num_batches
      pml_width max_horiz_survey_pad lr_model lr_src_amp
      invert_source invert_model.

Let params :=
  (if invert_source then [(SrcAmp, lr_src_amp)] else []) ++
  (if invert_model then [(Model, lr_model)] else []).

Let loop_from :=
  inversion_loop Optim zero_grad step propagate_backward ds src_start_time
                 num_pool_data num_max_time num_epochs num_superbatches
                 num_batches (pml_width_vector pml_width)
                 max_horiz_survey_pad.

(** [fwi] once the model has its axis and the optimizer exists. *)
Lemma fwi_after_setup (model0 : tensor) (opt : Optim) :
  add_model_axis model_init = Ok model0 ->
  Adam params = Ok opt ->
  run = match loop_from (mkState Optim src_amp_init model0 opt []) with
        | (s, Ok _) => (trace s, Ok (src_amp Optim s, model Optim s))
        | (s, Raise e) => (trace s, Raise e)
        end.
Proof.
  intros Hm Ha. unfold run, fwi. rewrite Hm. cbn [bind].
  fold params. rewrite Ha. reflexivity.
Qed.

(** The trace of a call that returns. *)
Lemma fwi_returns_trace (w m : tensor) :
  snd run = Ok (w, m) ->
  exists losses,
    length losses = Z.to_nat num_epochs /\
    fst run =
      stage_trace num_epochs num_superbatches num_batches 0
                  (int (inject_Z (num_steps ds) / inject_Z num_max_time))
                  losses.
Proof.
  unfold run, fwi.
  destruct (bind (add_model_axis model_init) _) as [s0 | e] eqn:Hpre;
    [| discriminate].
  assert (Htr : trace s0 = []).
  { destruct (add_model_axis model_init); cbn [bind] in Hpre;
      [| discriminate].
    destruct (Adam _); cbn [bind] in Hpre; [| discriminate].
    now injection Hpre as <-. }
  pose proof (inversion_loop_yields
                Optim zero_grad step propagate_backward ds src_start_time
                num_pool_data num_max_time num_epochs num_superbatches
                num_batches (pml_width_vector pml_width)
                max_horiz_survey_pad s0) as Hy.
  destruct (inversion_loop _ _ _ _ _ _ _ _ _ _ _ _ _ s0) as [s [u | e]];
    cbn [fst snd]; [| discriminate].
  intros _. destruct (Hy s u eq_refl) as (t & Ht & losses & _ & Hlen & ->).
  rewrite Htr in Ht. cbn [app] in Ht. exists losses.
  split; [| exact Ht].
  rewrite Hlen. unfold range. now rewrite length_map, length_seq.
Qed.

Lemma inject_Z_neq0 (z : Z) : z <> 0 -> ~ (inject_Z z == 0)%Q.
Proof. intros H E. apply -> inject_Z_eq0 in E. contradiction. Qed.

(** A stage begins exactly once when [num_max_time] is not zero, whether
    the stage completes or raises. *)
Lemma stage_body_begins_exactly_one (max_time_idx : Z) (u : unit)
      (s : loop_state Optim) :
  num_max_time <> 0 ->
  stages (trace (fst (stage_body Optim zero_grad step propagate_backward ds
                                 src_start_time num_pool_data num_max_time
                                 num_epochs num_superbatches num_batches
                                 (pml_width_vector pml_width)
                                 max_horiz_survey_pad max_time_idx u s)))
  = (stages (trace s) + 1)%nat.
Proof.
  intros Hn. unfold stage_body. unfold seq_loop at 1. unfold lift.
  rewrite (truediv_ok _ _ (inject_Z_neq0 _ Hn)).
  unfold seq_loop at 1. unfold emit at 1.
  match goal with
  | |- context [fst (?c ?s')] =>
      assert (Hq : quiet c); [| rewrite (Hq s')]
  end.
  - apply quiet_seq.
    + apply keeps_trace_quiet, calc_survey_pad_keeps_trace.
    + intros survey_pad. apply quiet_for_each. intros e acc.
      apply epoch_body_quiet.
  - cbn [trace]. unfold stages. rewrite filter_app, length_app. reflexivity.
Qed.

(** With [num_max_time = 0] the call raises [ZeroDivisionError] before
    the loop calls anything; with any other [num_max_time] it begins
    exactly one stage, whether it then returns or raises. *)
Theorem fwi_num_max_time_zero (model0 : tensor) (opt : Optim) :
  add_model_axis model_init = Ok model0 ->
  Adam params = Ok opt ->
  (num_max_time = 0 -> run = ([], Raise ZeroDivisionError)) /\
  (num_max_time <> 0 -> stages (fst run) = 1%nat).
Proof.
  intros Hm Ha. rewrite (fwi_after_setup model0 opt Hm Ha).
  unfold loop_from, inversion_loop. change (range 1) with [0].
  cbn [for_each]. split.
  - intros Hz. unfold seq_loop at 1. unfold stage_body.
    unfold seq_loop at 1. unfold lift. rewrite Hz. reflexivity.
  - intros Hn. unfold seq_loop at 1.
    pose proof (stage_body_begins_exactly_one
                  0 tt (mkState Optim src_amp_init model0 opt []) Hn) as H1.
    destruct (stage_body _ _ _ _ _ _ _ _ _ _ _ _ _ _ _ _) as [s [u | e]];
      cbn [fst ret trace] in *; exact H1.
Qed.

(** Without epochs ([num_epochs <= 0]) the call computes the survey
    padding once and returns the wavelet it was given and the model with
    its leading axis: the optimizer is never asked to step. *)
Theorem fwi_no_epochs (model0 : tensor) (opt : Optim) :
  add_model_axis model_init = Ok model0 ->
  Adam params = Ok opt ->
  num_max_time <> 0 ->
  num_epochs <= 0 ->
  data model0 <> [] ->
  run = ([CalcSurveyPad
            0 (int (inject_Z (num_steps ds) / inject_Z num_max_time))],
         Ok (src_amp_init, model0)).
Proof.
  intros Hm Ha Hn He Hd. rewrite (fwi_after_setup model0 opt Hm Ha).
  assert (Hs : shape model0 <> []).
  { unfold add_model_axis in Hm.
    destruct (shape model_init) as [| d rest] eqn:Es; [discriminate |].
    destruct (negb (d =? 1)%nat); injection Hm as <-;
      [discriminate | now rewrite Es]. }
  destruct (calc_survey_pad_ok
              ((0 + 1) * int (inject_Z (num_steps ds) / inject_Z num_max_time))
              (dt ds) model0 max_horiz_survey_pad Hd Hs) as [sp Hsp].
  unfold loop_from, inversion_loop. change (range 1) with [0].
  cbn [for_each]. unfold seq_loop at 1. unfold stage_body.
  unfold seq_loop at 1. unfold lift.
  rewrite (truediv_ok _ _ (inject_Z_neq0 _ Hn)).
  unfold seq_loop at 1. unfold emit. unfold seq_loop at 1.
  cbn [model]. rewrite Hsp.
  replace (range num_epochs) with (@nil Z)
    by (unfold range; now replace (Z.to_nat num_epochs) with 0%nat by lia).
  cbn [for_each ret trace src_amp model app].
  rewrite Z.add_0_l, Z.mul_1_l. reflexivity.
Qed.

(** A call that returns has cleared the gradients and stepped the
    optimizer once per superbatch of every epoch, and has run
    [num_batches] batches between the two. *)
Theorem fwi_call_counts (w m : tensor) :
  snd run = Ok (w, m) ->
  count is_zero_grad (fst run)
  = (Z.to_nat num_epochs * Z.to_nat num_superbatches)%nat /\
  count is_step (fst run)
  = (Z.to_nat num_epochs * Z.to_nat num_superbatches)%nat /\
  count is_run_batch (fst run)
  = (Z.to_nat num_epochs
     * (Z.to_nat num_superbatches * Z.to_nat num_batches))%nat.
Proof.
  intros Hok. destruct (fwi_returns_trace w m Hok) as (losses & Hlen & ->).
  split; [| split].
  - rewrite (count_stage_trace is_zero_grad false 1); try reflexivity;
      try exact Hlen. lia.
  - rewrite (count_stage_trace is_step false 1); try reflexivity;
      try exact Hlen. lia.
  - rewrite (count_stage_trace is_run_batch true 0); try reflexivity.
    exact Hlen.
Qed.

End FwiProperties.

Lemma fwi_num_max_time_zero_witness :
  (2 = 0 -> sample_fwi 2 1 = ([], Raise ZeroDivisionError)) /\
  (2 <> 0 -> stages (fst (sample_fwi 2 1)) = 1%nat).
Proof.
  apply (fwi_num_max_time_zero
           unit idle_Adam idle_zero_grad idle_step unit_loss
           sample_dataset sample_wavelet 0 sample_model
           2 2 1 2 2 10 500 100000 (1 # 10000) true true
           sample_model tt); reflexivity.
Defined.

Lemma fwi_no_epochs_witness :
  sample_fwi 2 0 =
    ([CalcSurveyPad 0 (int (inject_Z 8 / inject_Z 2))],
     Ok (sample_wavelet, sample_model)).
Proof.
  apply (fwi_no_epochs
           unit idle_Adam idle_zero_grad idle_step unit_loss
           sample_dataset sample_wavelet 0 sample_model
           2 2 0 2 2 10 500 100000 (1 # 10000) true true
           sample_model tt); try reflexivity; try lia; discriminate.
Defined.

Lemma fwi_call_counts_witness :
  count is_zero_grad (fst (sample_fwi 2 3)) = (Z.to_nat 3 * Z.to_nat 2)%nat /\
  count is_step (fst (sample_fwi 2 3)) = (Z.to_nat 3 * Z.to_nat 2)%nat /\
  count is_run_batch (fst (sample_fwi 2 3))
  = (Z.to_nat 3 * (Z.to_nat 2 * Z.to_nat 2))%nat.
Proof.
  apply (fwi_call_counts
           unit idle_Adam idle_zero_grad idle_step unit_loss
           sample_dataset sample_wavelet 0 sample_model
           2 2 3 2 2 10 500 100000 (1 # 10000) true true
           sample_wavelet sample_model).
  vm_compute. reflexivity.
Defined.

(** ** One batch: the time axes handed to the propagator *)



Section RunBatchProperties.

Variable Optim : Type.
Variable propagate_backward :
  tensor -> Q -> list Q -> list Q ->
  tensor -> tensor -> tensor -> Q -> tensor ->
  Optim -> result (Optim * Q).


End RunBatchProperties.


(** ** Invariants: the model's axis and well-formed tensors *)

(** The leading axis is added at most once: the model [fwi] works on has a
    first axis of size 1, it keeps its elements and its well-formedness,
    and giving it to [fwi] again changes nothing. *)
Theorem add_model_axis_idempotent (model_init model : tensor) :
  add_model_axis model_init = Ok model ->
  hd 0%nat (shape model) = 1%nat /\
  add_model_axis model = Ok model /\
  (well_formed model_init -> well_formed model).
Proof.
  unfold add_model_axis.
  destruct (shape model_init) as [| d rest] eqn:Hs; [discriminate |].
  destruct (Nat.eqb_spec d 1) as [-> | Hd]; cbn [negb]; intros H;
    injection H as <-.
  - rewrite Hs. cbn [hd Nat.eqb negb]. auto.
  - cbn [unsqueeze0 shape hd Nat.eqb negb]. split; [reflexivity |].
    split; [reflexivity |].
    unfold well_formed, unsqueeze0. cbn [data shape]. intros W.
    change (numel (1%nat :: shape model_init))
      with (1 * numel (shape model_init))%nat. lia.
Qed.

Lemma add_model_axis_idempotent_witness :
  hd 0%nat (shape (unsqueeze0 sample_wavelet)) = 1%nat /\
  add_model_axis (unsqueeze0 sample_wavelet) = Ok (unsqueeze0 sample_wavelet) /\
  (well_formed sample_wavelet -> well_formed (unsqueeze0 sample_wavelet)).
Proof.
  apply (add_model_axis_idempotent sample_wavelet (unsqueeze0 sample_wavelet)).
  reflexivity.
Defined.

Lemma avg_pool_well_formed (nsp : nat) (k p : Z) (t t' : tensor) :
  avg_pool nsp k p t = Ok t' -> well_formed t'.
Proof.
  unfold avg_pool.
  repeat match goal with
         | |- context [if ?c then _ else _] => destruct c
         end; intros H; try discriminate.
  injection H as <-. unfold well_formed. cbn [data shape].
  now rewrite length_map, length_multi_indices.
Qed.

(** The model [pool_model] returns is well-formed, with the channel axis
    of the model first. *)
Theorem pool_model_well_formed (model : tensor) (dt dx mc : Q)
        (model_pool : tensor) (new_dx : Q) :
  pool_model model dt dx mc = Ok (model_pool, new_dx) ->
  well_formed model_pool /\
  hd_error (shape model_pool) = hd_error (shape model).
Proof.
  unfold pool_model. intros H.
  destruct (select_poolfunc (dim model)) as [pf |] eqn:Hsel;
    cbn [bind] in H; [| discriminate].
  destruct (pool_factor model dt dx mc) as [f |]; cbn [bind] in H;
    [| discriminate].
  destruct (apply_pool pf f 0 (unsqueeze0 model)) as [t' |] eqn:Hp;
    cbn [bind] in H; [| discriminate].
  pose proof (avg_pool_well_formed _ _ _ _ _ Hp) as W.
  assert (Hrank : length (shape model) = (pooled_axes pf + 1)%nat).
  { unfold select_poolfunc, dim in Hsel.
    destruct (Z.eqb_spec (Z.of_nat (length (shape model))) 2);
      [injection Hsel as <-; cbn; lia |].
    destruct (Z.eqb_spec (Z.of_nat (length (shape model))) 3);
      [injection Hsel as <-; cbn; lia |].
    destruct (Z.eqb_spec (Z.of_nat (length (shape model))) 4);
      [injection Hsel as <-; cbn; lia | discriminate]. }
  assert (Hsh : exists c sp sp', shape model = c :: sp /\
                                 shape t' = 1%nat :: c :: sp').
  { unfold apply_pool, avg_pool in Hp. cbn [unsqueeze0 shape length] in Hp.
    destruct (shape model) as [| c sp]; [cbn in Hrank; lia |].
    cbn [length] in Hp, Hrank.
    replace (S (S (length sp)) - pooled_axes pf)%nat with 2%nat in Hp by lia.
    cbn [firstn skipn app] in Hp.
    repeat match type of Hp with
           | context [if ?c then _ else _] => destruct c
           end; try discriminate.
    injection Hp as <-. cbn [shape]. eauto. }
  destruct Hsh as (c & sp & sp' & Hm & Ht).
  unfold index0 in H. rewrite Ht in H. cbn [bind] in H.
  injection H as <- _. cbn [shape]. rewrite Hm. split; [| reflexivity].
  unfold well_formed in *. rewrite Ht in W. cbn [data shape].
  change (numel (1%nat :: c :: sp')) with (1 * numel (c :: sp'))%nat in W.
  change (c * numel sp')%nat with (numel (c :: sp')).
  rewrite firstn_all2; lia.
Qed.

Lemma pool_model_well_formed_witness :
  well_formed (fst sample_pooled_model) /\
  hd_error (shape (fst sample_pooled_model)) = hd_error (shape sample_model).
Proof.
  apply (pool_model_well_formed sample_model ((1 # 1000) * inject_Z 2) 5 4
                                _ (snd sample_pooled_model)).
  vm_compute. reflexivity.
Defined.
